(** * SocksAuth: a SOCKS5-to-SOCKS5 forwarding proxy

    A shallow embedding of [api.go] (lifecycle manager and protocol engine)
    and of the NordVPN resolver, followed by the properties proved about
    them.

    Conventions.
    - A Go [byte] is a [Byte.byte]; [int(b)] is [Byte.to_nat b] and
      [byte(n)] keeps the low eight bits of [n].
    - A Go [string] is a [string]; its [len] is [String.length] and its
      bytes are [list_byte_of_string].
    - A [net.Conn] is a record holding the bytes the peer still delivers,
      the bytes handed to [Write] so far and the outcome of the coming
      [Write] calls.  Functions over connections are written in a small
      state-and-error monad, so that a failing step keeps the bytes it
      consumed and the replies it wrote, as in Go.
    - Goroutines and channels are modelled by an interleaving semantics:
      each thread is a small program, a schedule picks the thread that moves
      next, and a send or receive that would block leaves the state as it
      is. *)

From Stdlib Require Import ZArith Lia List Bool String Permutation.
From Stdlib Require Strings.Byte.
From Stdlib Require Import Init.Byte.
From stdpp Require Import base list strings.

Set Default Proof Using "Type".

(* ===================================================================== *)
(** * Part I: definitions *)
(* ===================================================================== *)

(** ** Constants of [api.go] *)

Definition _SOCKS_VERSION : byte := x05.
Definition _NO_ACCEPTABLE_METHODS : byte := xff.

Definition _NO_AUTHENTICATION : byte := x00.
Definition _USERNAME_PASSWORD_AUTH : byte := x02.
Definition _CONNECT : byte := x01.

Definition _STATUS_OK : byte := x00.
Definition _GENERAL_SOCKS_FAILURE : byte := x01.
Definition _CONN_NOT_ALLOWED_BY_RULESET : byte := x02.
Definition _NETWORK_UNREACHABLE : byte := x03.
Definition _HOST_UNREACHABLE : byte := x04.
Definition _CONN_REFUSED : byte := x05.
Definition _TTL_EXPIRED : byte := x06.
Definition _COMMAND_NOT_SUPPORTED : byte := x07.
Definition _ADDRESS_TYPE_NOT_SUPPORTED : byte := x08.

Definition _IP_V4 : byte := x01.
Definition _DOMAIN_NAME : byte := x03.
Definition _IP_V6 : byte := x04.

(** [net.IPv4len] and [net.IPv6len]. *)
Definition IPv4len : nat := 4.
Definition IPv6len : nat := 16.

(** ** Bytes and slices *)

#[global] Instance byte_eq_dec : EqDecision byte := Byte.byte_eq_dec.
#[global] Instance byte_inhabited : Inhabited byte := populate x00.

(** [int(b)] for a byte [b]. *)
Definition int_of_byte (b : byte) : nat := Byte.to_nat b.

(** [byte(n)] for a non-negative [int]: the conversion truncates to the low
    eight bits. *)
Definition byte_of_int (n : nat) : byte :=
  default x00 (Byte.of_nat (n mod 256)).

(** [make([]byte, n)]: [n] zero bytes. *)
Definition make (n : nat) : list byte := replicate n x00.

(** [copy(dst[off:], src)]: overwrites [dst] from index [off] on with the
    bytes of [src], as far as [dst] reaches. *)
Definition copy_at (dst : list byte) (off : nat) (src : list byte) : list byte :=
  list_inserts off src dst.

(** [contains] of [api.go]: a range loop with an early return. *)
Fixpoint contains {T : Type} `{EqDecision T} (slice : list T) (item : T) : bool :=
  match slice with
  | [] => false
  | s :: rest => if decide (s = item) then true else contains rest item
  end.

(** ** Errors *)

(** Operands of a [fmt.Errorf] format other than the [%w] one. *)
Inductive fmtarg : Type :=
| ArgInt (n : nat)
| ArgStr (s : string).

(** Go [error] values.  [Errorf format args] is [fmt.Errorf(format, args...)]
    for a format without [%w]; [ErrorfW format args w] is
    [fmt.Errorf(format, args..., w)] where [w] is the operand of [%w].
    [Errno] is a [syscall.Errno]; [OpError] is the [*net.OpError] the
    network stack wraps system errors in. *)
Inductive error : Type :=
| io_EOF
| io_ErrUnexpectedEOF
| net_ErrClosed
| Errno (code : nat)
| OpError (op : string) (cause : error)
| Errorf (format : string) (args : list fmtarg)
| ErrorfW (format : string) (args : list fmtarg) (w : error).

Definition ECONNRESET : error := Errno 104.
Definition EPIPE : error := Errno 32.

Definition errno_eqb (e target : error) : bool :=
  match e, target with
  | Errno a, Errno b => Nat.eqb a b
  | io_EOF, io_EOF => true
  | io_ErrUnexpectedEOF, io_ErrUnexpectedEOF => true
  | net_ErrClosed, net_ErrClosed => true
  | _, _ => false
  end.

(** [errors.Is(err, target)] for a sentinel [target]: walks the chain of
    wrapped errors. *)
Fixpoint errors_Is_chain (e : error) (target : error) : bool :=
  errno_eqb e target ||
  match e with
  | OpError _ cause => errors_Is_chain cause target
  | ErrorfW _ _ w => errors_Is_chain w target
  | _ => false
  end.

Definition errors_Is (err : option error) (target : error) : bool :=
  match err with
  | None => false
  | Some e => errors_Is_chain e target
  end.

(** ** Connections and the I/O monad *)

Record Conn : Type := mkConn {
  rd : list byte;            (* bytes the peer delivers before the stream ends *)
  wr : list byte;            (* bytes handed to Write so far, oldest first *)
  wres : list (option error) (* outcome of the coming Write calls; none left: success *)
}.

Inductive result (A : Type) : Type :=
| Ok (a : A)
| Err (e : error).
Arguments Ok {A} a.
Arguments Err {A} e.

Definition is_Ok {A} (r : result A) : bool :=
  match r with Ok _ => true | Err _ => false end.

Definition IO (S A : Type) : Type := S -> result A * S.

Definition ret {S A} (a : A) : IO S A := fun s => (Ok a, s).
Definition throw {S A} (e : error) : IO S A := fun s => (Err e, s).
Definition bind {S A B} (m : IO S A) (k : A -> IO S B) : IO S B :=
  fun s => match m s with
           | (Ok a, s') => k a s'
           | (Err e, s') => (Err e, s')
           end.
Definition catch {S A} (m : IO S A) (h : error -> IO S A) : IO S A :=
  fun s => match m s with
           | (Ok a, s') => (Ok a, s')
           | (Err e, s') => h e s'
           end.
(** A call whose error result is dropped, as in [conn.Write(...)] used as a
    statement. *)
Definition ignore {S A} (m : IO S A) : IO S unit :=
  fun s => (Ok tt, snd (m s)).
(** [if err != nil { return fmt.Errorf(format, err) }]. *)
Definition wrapErr {S A} (format : string) (m : IO S A) : IO S A :=
  catch m (fun e => throw (ErrorfW format [] e)).

Declare Scope io_scope.
Delimit Scope io_scope with io.
Notation "x <- m ;; k" := (bind m (fun x => k))
  (at level 100, m at next level, k at level 200, right associativity) : io_scope.
Notation "m ;; k" := (bind m (fun _ => k))
  (at level 100, k at level 200, right associativity) : io_scope.
Local Open Scope io_scope.

(** [io.ReadFull(conn, buf)] with [len(buf) = n]: exactly [n] bytes, or an
    error once the stream ends early ([io.EOF] when nothing was read,
    [io.ErrUnexpectedEOF] otherwise); the bytes read until then are gone
    from the stream. *)
Definition ReadFull (n : nat) : IO Conn (list byte) := fun c =>
  if decide (n <= length (rd c)) then
    (Ok (take n (rd c)), mkConn (drop n (rd c)) (wr c) (wres c))
  else
    (Err (match rd c with [] => io_EOF | _ => io_ErrUnexpectedEOF end),
     mkConn [] (wr c) (wres c)).

(** [conn.Write(b)]: the bytes are handed to the connection and the
    transport decides the outcome.  [wr] records the bytes of every call,
    so that it tells what the program sent also where the caller drops the
    result of the call. *)
Definition Write (b : list byte) : IO Conn unit := fun c =>
  let c' := mkConn (rd c) (wr c ++ b) (tail (wres c)) in
  match wres c with
  | Some e :: _ => (Err e, c')
  | _ => (Ok tt, c')
  end.

(** The two connections of a session. *)
Record Conns : Type := mkConns {
  client : Conn;
  remote : Conn
}.

Definition on_client {A} (m : IO Conn A) : IO Conns A := fun p =>
  let '(r, c) := m (client p) in (r, mkConns c (remote p)).
Definition on_remote {A} (m : IO Conn A) : IO Conns A := fun p =>
  let '(r, c) := m (remote p) in (r, mkConns (client p) c).

(** ** Protocol engine *)

(** [greetClient]: the method-selection exchange with the client. *)
Definition greetClient : IO Conn unit :=
  header <- wrapErr "error reading header: %w" (ReadFull 2) ;;
  let socksVersion := header !!! 0 in
  if negb (bool_decide (socksVersion = _SOCKS_VERSION)) then
    throw (Errorf "unsupported SOCKS version: %d" [ArgInt (int_of_byte socksVersion)])
  else
  let numMethods := int_of_byte (header !!! 1) in
  methods <- wrapErr "error reading methods: %w" (ReadFull numMethods) ;;
  if negb (contains methods _NO_AUTHENTICATION) then
    ignore (Write [_SOCKS_VERSION; _NO_ACCEPTABLE_METHODS]) ;;
    throw (Errorf "no supported authentication methods" [])
  else
  ignore (Write [_SOCKS_VERSION; _NO_AUTHENTICATION]) ;;
  ret tt.

(** The username/password subnegotiation request of
    [authenticateRemoteSocks], built as the source builds it: a zeroed
    buffer, two index assignments and two [copy] calls.  All indices are in
    range by the length of the buffer. *)
Definition authRequest (username password : string) : list byte :=
  let a := make (3 + String.length username + String.length password) in
  let a := <[0 := x01]> a in
  let a := <[1 := byte_of_int (String.length username)]> a in
  let a := copy_at a 2 (list_byte_of_string username) in
  let a := <[2 + String.length username := byte_of_int (String.length password)]> a in
  copy_at a (3 + String.length username) (list_byte_of_string password).

(** The method-selection message sent to the upstream. *)
Definition authMethods : list byte :=
  [_SOCKS_VERSION; x01; _USERNAME_PASSWORD_AUTH].

Definition authenticateRemoteSocks (username password : string) : IO Conn unit :=
  wrapErr "error sending authentication methods: %w" (Write authMethods) ;;
  response <- wrapErr "error reading authentication method selection: %w" (ReadFull 2) ;;
  if negb (bool_decide (response !!! 1 = _USERNAME_PASSWORD_AUTH)) then
    throw (Errorf "server did not select username/password authentication, selected method: %d"
                  [ArgInt (int_of_byte (response !!! 1))])
  else
  wrapErr "error sending username/password: %w" (Write (authRequest username password)) ;;
  response <- wrapErr "error reading authentication response: %w" (ReadFull 2) ;;
  if negb (bool_decide (response !!! 1 = _STATUS_OK)) then
    throw (Errorf "authentication failed" [])
  else
  ret tt.

(** [readSocks5Request]: the client's request, framed by its address type.
    The result is the header, the domain-length byte when there is one, the
    address and the port. *)
Definition readSocks5Request : IO Conn (list byte) :=
  requestHeader <- wrapErr "error reading request header: %w" (ReadFull 4) ;;
  let version := requestHeader !!! 0 in
  if negb (bool_decide (version = _SOCKS_VERSION)) then
    throw (Errorf "unsupported SOCKS version: %d" [ArgInt (int_of_byte version)])
  else
  let cmd := requestHeader !!! 1 in
  if negb (bool_decide (cmd = _CONNECT)) then
    ignore (Write [_SOCKS_VERSION; _COMMAND_NOT_SUPPORTED]) ;;
    throw (Errorf "unsupported command: %d" [ArgInt (int_of_byte cmd)])
  else
  let atyp := requestHeader !!! 3 in
  hl <- (if bool_decide (atyp = _IP_V4) then ret (requestHeader, IPv4len)
         else if bool_decide (atyp = _DOMAIN_NAME) then
           lengthByte <- wrapErr "error reading domain name length: %w" (ReadFull 1) ;;
           ret (requestHeader ++ lengthByte, int_of_byte (lengthByte !!! 0))
         else if bool_decide (atyp = _IP_V6) then ret (requestHeader, IPv6len)
         else
           ignore (Write [_SOCKS_VERSION; _ADDRESS_TYPE_NOT_SUPPORTED]) ;;
           throw (Errorf "unknown address type: %d" [ArgInt (int_of_byte atyp)])) ;;
  let '(requestHeader, addrLen) := hl in
  requestRest <- catch (ReadFull (addrLen + 2)) (fun e =>
                   ignore (Write [_SOCKS_VERSION; _GENERAL_SOCKS_FAILURE]) ;;
                   throw (ErrorfW "error reading the rest of the request: %w" [] e)) ;;
  ret (requestHeader ++ requestRest).

(** The failure messages of [readSocks5Response], by reply code. *)
Definition reply_message (reply : byte) : option string :=
  if bool_decide (reply = _GENERAL_SOCKS_FAILURE) then Some "general SOCKS server failure"%string
  else if bool_decide (reply = _CONN_NOT_ALLOWED_BY_RULESET)
       then Some "connection not allowed by ruleset"%string
  else if bool_decide (reply = _NETWORK_UNREACHABLE) then Some "network unreachable"%string
  else if bool_decide (reply = _HOST_UNREACHABLE) then Some "host unreachable"%string
  else if bool_decide (reply = _CONN_REFUSED) then Some "connection refused"%string
  else if bool_decide (reply = _TTL_EXPIRED) then Some "TTL expired"%string
  else if bool_decide (reply = _COMMAND_NOT_SUPPORTED) then Some "command not supported"%string
  else if bool_decide (reply = _ADDRESS_TYPE_NOT_SUPPORTED)
       then Some "address type not supported"%string
  else None.

(** [readSocks5Response]: the upstream's reply.  Its failure replies are
    written to [conn], the connection it reads from.  In the domain case the
    length byte is read into a buffer of its own and the header is left as
    it was. *)
Definition readSocks5Response : IO Conn (list byte) :=
  header <- catch (ReadFull 4) (fun e =>
              ignore (Write [_SOCKS_VERSION; _GENERAL_SOCKS_FAILURE]) ;;
              throw (ErrorfW "error reading response header: %w" [] e)) ;;
  let version := header !!! 0 in
  if negb (bool_decide (version = _SOCKS_VERSION)) then
    ignore (Write [_SOCKS_VERSION; _GENERAL_SOCKS_FAILURE]) ;;
    throw (Errorf "unsupported SOCKS version: %d" [ArgInt (int_of_byte version)])
  else
  let reply := header !!! 1 in
  (if bool_decide (reply = _STATUS_OK) then ret tt
   else match reply_message reply with
        | Some msg =>
            ignore (Write [_SOCKS_VERSION; header !!! 1]) ;;
            throw (Errorf msg [])
        | None =>
            ignore (Write [_SOCKS_VERSION; _GENERAL_SOCKS_FAILURE]) ;;
            throw (Errorf "unknown reply: %d" [ArgInt (int_of_byte reply)])
        end) ;;
  let atyp := header !!! 3 in
  addrLen <- (if bool_decide (atyp = _IP_V4) then ret IPv4len
              else if bool_decide (atyp = _DOMAIN_NAME) then
                lengthByte <- wrapErr "error reading domain name length: %w" (ReadFull 1) ;;
                ret (int_of_byte (lengthByte !!! 0))
              else if bool_decide (atyp = _IP_V6) then ret IPv6len
              else
                ignore (Write [_SOCKS_VERSION; _ADDRESS_TYPE_NOT_SUPPORTED]) ;;
                throw (Errorf "unknown address type: %d" [ArgInt (int_of_byte atyp)])) ;;
  requestRest <- catch (ReadFull (addrLen + 2)) (fun e =>
                   ignore (Write [_SOCKS_VERSION; _GENERAL_SOCKS_FAILURE]) ;;
                   throw (ErrorfW "error reading the rest of the response: %w" [] e)) ;;
  ret (header ++ requestRest).

(** [sendRemoteRequest]: forwards the client's request to the upstream and
    the upstream's reply to the client. *)
Definition sendRemoteRequest : IO Conns unit :=
  request <- wrapErr "error reading request from client: %w" (on_client readSocks5Request) ;;
  wrapErr "error forwarding request to remote server: %w" (on_remote (Write request)) ;;
  response <- wrapErr "error reading response from remote server: %w"
                      (on_remote readSocks5Response) ;;
  wrapErr "error forwarding response to client: %w" (on_client (Write response)) ;;
  ret tt.

(** ** Connection handler *)

(** The fields of [Server] the handler reads.  [onError] tells whether the
    callback is set; the error it is called with is what the handler
    reports. *)
Record Server : Type := mkServer {
  RemoteHost : string;
  RemoteUser : string;
  RemotePass : string;
  openConnLimit : nat;
  onError : bool
}.

(** [strings.TrimPrefix] and [strings.Contains]. *)
Definition TrimPrefix (s pre : string) : string :=
  if String.prefix pre s
  then String.substring (String.length pre) (String.length s - String.length pre) s
  else s.
Definition Contains (s sub : string) : bool :=
  match String.index 0 sub s with Some _ => true | None => false end.

(** [getTcpConn]: [finder] is the outcome of [s.serverFinder(ctx)] and
    [dial] is [net.Dial("tcp", _)]. *)
Definition getTcpConn (s : Server) (finder : result string)
    (dial : string -> result Conn) : result (Conn * string) :=
  let resolved :=
    if bool_decide (RemoteHost s = ""%string) then finder else Ok (RemoteHost s) in
  match resolved with
  | Err err => Err err
  | Ok remoteHost =>
      let remoteHost := TrimPrefix remoteHost "socks5://" in
      let remoteHost :=
        if negb (Contains remoteHost ":") then (remoteHost +:+ ":1080")%string
        else remoteHost in
      match dial remoteHost with
      | Err err =>
          Err (ErrorfW "error connecting to remote server (%s): %w" [ArgStr remoteHost] err)
      | Ok conn => Ok (conn, remoteHost)
      end
  end.

(** The calls a handler makes, in order. *)
Inductive Stage : Type :=
| StGreet | StDial | StAuth | StForward | StRelay.

#[global] Instance Stage_eq_dec : EqDecision Stage.
Proof. solve_decision. Defined.

(** What a run of [handleConnection] leaves behind: the stages it entered,
    the error handed to [onError] (when the callback is set and a stage
    failed), and the two connections. *)
Record Handled : Type := mkHandled {
  stages : list Stage;
  reported : option error;
  client_after : Conn;
  remote_after : option Conn
}.

Definition report (s : Server) (err : error) : option error :=
  if onError s then Some err else None.

(** [handleConnection]: [finder] and [dial] are the environment of
    [getTcpConn], [remoteAddr] is the text of [remoteConn.RemoteAddr()], and
    [relay] is the outcome of [syncConns] on the two connections. *)
Definition handleConnection (s : Server) (finder : result string)
    (dial : string -> result Conn) (remoteAddr : string)
    (relay : Conns -> option error) (clientConn : Conn) : Handled :=
  match greetClient clientConn with
  | (Err err, c) =>
      mkHandled [StGreet] (report s (ErrorfW "error greeting client: %w" [] err)) c None
  | (Ok _, c) =>
  match getTcpConn s finder dial with
  | Err err => mkHandled [StGreet; StDial] (report s err) c None
  | Ok (remoteConn, remoteHost) =>
  match authenticateRemoteSocks (RemoteUser s) (RemotePass s) remoteConn with
  | (Err err, r) =>
      mkHandled [StGreet; StDial; StAuth]
        (report s (ErrorfW "error authenticating with remote server (%s | %s): %w"
                           [ArgStr remoteHost; ArgStr remoteAddr] err))
        c (Some r)
  | (Ok _, r) =>
  match sendRemoteRequest (mkConns c r) with
  | (Err err, p) =>
      mkHandled [StGreet; StDial; StAuth; StForward]
        (report s (ErrorfW "error sending request to remote server: %w" [] err))
        (client p) (Some (remote p))
  | (Ok _, p) =>
      mkHandled [StGreet; StDial; StAuth; StForward; StRelay]
        (match relay p with
         | Some err => report s (ErrorfW "error syncing connections: %w" [] err)
         | None => None
         end)
        (client p) (Some (remote p))
  end end end end.

(** ** Resolver *)

(** The fields of [nordServer] the resolver and its filter read. *)
Record nordServer : Type := mkNordServer {
  ID : Z;
  Name : string;
  Hostname : string;
  Load : Z;
  Status : string
}.

#[global] Instance nordServer_inhabited : Inhabited nordServer :=
  populate (mkNordServer 0 "" "" 0 "").

(** [removeAtIndexNoOrder]: the entry at [idx] is overwritten by the last
    one and the slice is cut by one.  [idx] is a Go [int]. *)
Definition removeAtIndexNoOrder {T : Type} (a : list T) (idx : Z) : list T :=
  if bool_decide (idx < 0 \/ idx >= Z.of_nat (length a))%Z then a
  else
    match a !! (length a - 1) with
    | Some x => take (length a - 1) (<[Z.to_nat idx := x]> a)
    | None => a (* not reached: the slice is not empty here *)
    end.

Section Resolver.

(** The environment of [FindNordVpnServer]: [draw k] is the [k]-th value of
    the random source, [reachable addr] tells whether
    [net.DialTimeout("tcp", addr, time.Second)] succeeds, and [discover] is
    the outcome of [findNordVpnServers]. *)
Variable draw : nat -> nat.
Variable reachable : string -> bool.
Variable discover : result (list nordServer).

(** [rand.Intn(n)] at the [k]-th draw, for [n > 0]. *)
Definition Intn (k n : nat) : nat := draw k mod n.

Definition chosenAddr (s : nordServer) : string := (Hostname s +:+ ":1080")%string.

(** The [for] loop of [FindNordVpnServer] on the pool [servers], with [k]
    draws made so far.  [None]: out of fuel. *)
Fixpoint probe_loop (fuel : nat) (servers : list nordServer) (k : nat)
    : option (result string * list nordServer * nat) :=
  match fuel with
  | 0 => None
  | S fuel =>
      if decide (length servers = 0) then
        Some (Err (Errorf "no socks server found" []), servers, k)
      else
        let randIdx := Intn k (length servers) in
        let addr := chosenAddr (servers !!! randIdx) in
        if reachable addr then Some (Ok addr, servers, S k)
        else probe_loop fuel (removeAtIndexNoOrder servers (Z.of_nat randIdx)) (S k)
  end.

(** [FindNordVpnServer] on the package variable [servers]: the result, the
    pool left behind and the number of draws made. *)
Definition FindNordVpnServer (servers : list nordServer) (k : nat)
    : option (result string * list nordServer * nat) :=
  let refreshed :=
    if decide (length servers = 0) then discover else Ok servers in
  match refreshed with
  | Err err => Some (Err err, [], k)
  | Ok servers => probe_loop (S (length servers)) servers k
  end.

End Resolver.

(** ** Discovery *)

(** [nordTechnology], in a name space of its own: its [ID] field has the
    name of [nordServer]'s. *)
Module Tech.
Record nordTechnology : Type := mkNordTechnology {
  ID : Z;
  Name : string;
  Identifier : string
}.
End Tech.

(** A server entry as [fetchJson] decodes it, as far as the filter reads
    it: the fields of [nordServer] above and the entry's [Technologies]. *)
Record nordServerEntry : Type := mkNordServerEntry {
  entry : nordServer;
  Technologies : list Tech.nordTechnology
}.

(** [findNordVpnServers]: [fetched] is the outcome of [fetchJson].  The
    two loops of the source, each with its accumulator [socks5Servers]. *)
Definition findNordVpnServers (fetched : result (list nordServerEntry))
    : result (list nordServer) :=
  match fetched with
  | Err err => Err err
  | Ok servers =>
      Ok (fold_left
            (fun socks5Servers server =>
               if negb (String.eqb (Status (entry server)) "online") then socks5Servers
               else if (Load (entry server) >? 80)%Z then socks5Servers
               else
                 fold_left
                   (fun socks5Servers tech =>
                      if (Tech.ID tech =? 7)%Z then socks5Servers ++ [entry server]
                      else socks5Servers)
                   (Technologies server) socks5Servers)
            servers [])
  end.

(** ** Channels *)

(** A buffered channel: [make(chan A, cap)].  A send that finds the buffer
    full and a receive that finds it empty block: they return [None] and
    the caller stays where it is. *)
Record chan (A : Type) : Type := mkChan {
  cap : nat;
  buf : list A
}.
Arguments mkChan {A} cap buf.
Arguments cap {A} c.
Arguments buf {A} c.

Definition make_chan {A} (n : nat) : chan A := mkChan n [].

Definition chan_send {A} (v : A) (c : chan A) : option (chan A) :=
  if decide (length (buf c) < cap c) then Some (mkChan (cap c) (buf c ++ [v]))
  else None.

Definition chan_recv {A} (c : chan A) : option (A * chan A) :=
  match buf c with
  | [] => None
  | v :: rest => Some (v, mkChan (cap c) rest)
  end.

(** ** Relay *)

(** The threads of [syncConns]: the two copy goroutines and the caller. *)
Inductive tid : Type :=
| T_client_to_remote
| T_remote_to_client
| T_main.

#[global] Instance tid_eq_dec : EqDecision tid.
Proof. solve_decision. Defined.

(** The sends a copy goroutine makes on [done] once [io.Copy] has returned
    [err].  On a reset the first [if] sends [nil] and falls through to the
    second. *)
Definition copier (format : string) (err : option error) : list (option error) :=
  (if errors_Is err ECONNRESET then [None] else []) ++
  match err with
  | Some e => [Some (ErrorfW format [] e)]
  | None => [None]
  end.

(** A copy goroutine is inside [io.Copy], or has the listed sends left. *)
Inductive gstate : Type :=
| GCopy
| GSend (pending : list (option error)).

(** The caller is at the receive, at one of the two [Close] calls, or has
    returned. *)
Inductive mstate : Type :=
| MRecv
| MCloseClient (err : option error)
| MCloseRemote (err : option error)
| MReturned (err : option error).

Record RelayState : Type := mkRelay {
  done : chan (option error);
  g_c2r : gstate;
  g_r2c : gstate;
  main : mstate;
  clientClosed : bool;
  remoteClosed : bool;
  sent : list (tid * option error)   (* the sends on done that went through, oldest first *)
}.

Definition relay_init : RelayState :=
  mkRelay (make_chan 1) GCopy GCopy MRecv false false [].

Definition format_of (t : tid) : string :=
  match t with
  | T_remote_to_client => "error copying data from remote to client: %w"
  | _ => "error copying data from client to remote: %w"
  end.

(** One move of a copy goroutine in state [g]: the new state, the channel
    and the send that went through, if any. *)
Definition gstep (t : tid) (err : option error) (g : gstate)
    (ch : chan (option error)) : gstate * chan (option error) * list (tid * option error) :=
  match g with
  | GCopy => (GSend (copier (format_of t) err), ch, [])
  | GSend [] => (g, ch, [])
  | GSend (v :: rest) =>
      match chan_send v ch with
      | Some ch' => (GSend rest, ch', [(t, v)])
      | None => (g, ch, [])
      end
  end.

Section Relay.

(** What [io.Copy] returns in each goroutine. *)
Variable errC2R errR2C : option error.

Definition relay_step (st : RelayState) (t : tid) : RelayState :=
  match t with
  | T_client_to_remote =>
      let '(g, ch, s) := gstep t errC2R (g_c2r st) (done st) in
      mkRelay ch g (g_r2c st) (main st) (clientClosed st) (remoteClosed st) (sent st ++ s)
  | T_remote_to_client =>
      let '(g, ch, s) := gstep t errR2C (g_r2c st) (done st) in
      mkRelay ch (g_c2r st) g (main st) (clientClosed st) (remoteClosed st) (sent st ++ s)
  | T_main =>
      match main st with
      | MRecv =>
          match chan_recv (done st) with
          | Some (err, ch) =>
              mkRelay ch (g_c2r st) (g_r2c st) (MCloseClient err)
                      (clientClosed st) (remoteClosed st) (sent st)
          | None => st
          end
      | MCloseClient err =>
          mkRelay (done st) (g_c2r st) (g_r2c st) (MCloseRemote err)
                  true (remoteClosed st) (sent st)
      | MCloseRemote err =>
          mkRelay (done st) (g_c2r st) (g_r2c st) (MReturned err)
                  (clientClosed st) true (sent st)
      | MReturned _ => st
      end
  end.

Definition relay_run (sched : list tid) : RelayState :=
  fold_left relay_step sched relay_init.

(** [syncConns] under the schedule [sched]: the value returned, or [None]
    while the caller has not returned. *)
Definition syncConns (sched : list tid) : option (option error) :=
  match main (relay_run sched) with
  | MReturned err => Some err
  | _ => None
  end.

End Relay.

(** What a copy goroutine reports first for the outcome [err] of its copy:
    [nil] for a clean end or a reset, the wrapped error otherwise. *)
Definition first_report (t : tid) (err : option error) : option error :=
  match err with
  | None => None
  | Some e => if errors_Is err ECONNRESET then None
              else Some (ErrorfW (format_of t) [] e)
  end.

(** ** Lifecycle manager *)

(** The accept loop of [Start] is at the top of the loop (the [select] on
    [ctx.Done()]), inside [l.Accept()], at the send that acquires a slot for
    the connection it has accepted, or has returned. *)
Inductive lstate : Type :=
| LTop | LAccept | LAcquire | LStopped.

(** The goroutine of an admitted connection has not started yet, is between
    [s.ConnCount.Add(1)] and the return of [handleConnection], is at the
    send that releases its slot, or has ended. *)
Inductive hstate : Type :=
| HStart | HHandling | HRelease | HExited.

#[global] Instance hstate_eq_dec : EqDecision hstate.
Proof. solve_decision. Defined.

(** What can happen next: the environment delivers a connection or an error
    to [l.Accept()], or cancels [ctx]; the accept loop moves; the goroutine
    of the [i]-th admitted connection moves. *)
Inductive move : Type :=
| MvConn
| MvAcceptErr
| MvCancel
| MvLoop
| MvHandler (i : nat).

Record StartState : Type := mkStart {
  semaphore : option (chan unit);   (* None: the nil channel *)
  loop : lstate;
  cancelled : bool;
  handlers : list hstate;           (* one entry per admitted connection *)
  ConnCount : Z;
  OpenConnCount : Z;
  acceptErrors : nat                (* failed l.Accept() calls *)
}.

(** [Start] after [net.Listen] has succeeded: the semaphore is made only
    for a positive limit. *)
Definition start_init (s : Server) : StartState :=
  mkStart (if decide (0 < openConnLimit s) then Some (make_chan (openConnLimit s)) else None)
          LTop false [] 0 0 0.

(** [go func() { ... }()]: a new goroutine for the accepted connection. *)
Definition spawn (st : StartState) (sem : option (chan unit)) : StartState :=
  mkStart sem LTop (cancelled st) (handlers st ++ [HStart])
          (ConnCount st) (OpenConnCount st) (acceptErrors st).

Definition handler_step (st : StartState) (i : nat) : StartState :=
  match handlers st !! i with
  | Some HStart =>
      mkStart (semaphore st) (loop st) (cancelled st) (<[i := HHandling]> (handlers st))
              (ConnCount st + 1) (OpenConnCount st + 1) (acceptErrors st)
  | Some HHandling =>
      (* handleConnection has returned; conn.Close(); cancel(); OpenConnCount.Add(-1) *)
      mkStart (semaphore st) (loop st) (cancelled st)
              (<[i := match semaphore st with Some _ => HRelease | None => HExited end]>
                 (handlers st))
              (ConnCount st) (OpenConnCount st - 1) (acceptErrors st)
  | Some HRelease =>
      (* release semaphore: semaphore <- struct{}{} *)
      match semaphore st with
      | Some ch =>
          match chan_send tt ch with
          | Some ch' =>
              mkStart (Some ch') (loop st) (cancelled st) (<[i := HExited]> (handlers st))
                      (ConnCount st) (OpenConnCount st) (acceptErrors st)
          | None => st
          end
      | None => st
      end
  | Some HExited | None => st
  end.

Definition start_step (st : StartState) (m : move) : StartState :=
  match m with
  | MvCancel =>
      mkStart (semaphore st) (loop st) true (handlers st)
              (ConnCount st) (OpenConnCount st) (acceptErrors st)
  | MvLoop =>
      match loop st with
      | LTop =>
          mkStart (semaphore st) (if cancelled st then LStopped else LAccept)
                  (cancelled st) (handlers st)
                  (ConnCount st) (OpenConnCount st) (acceptErrors st)
      | LAcquire =>
          (* aquire semaphore: semaphore <- struct{}{} *)
          match semaphore st with
          | Some ch =>
              match chan_send tt ch with
              | Some ch' => spawn st (Some ch')
              | None => st
              end
          | None => spawn st None
          end
      | LAccept | LStopped => st
      end
  | MvConn =>
      match loop st with
      | LAccept =>
          match semaphore st with
          | Some _ =>
              mkStart (semaphore st) LAcquire (cancelled st) (handlers st)
                      (ConnCount st) (OpenConnCount st) (acceptErrors st)
          | None => spawn st None
          end
      | _ => st
      end
  | MvAcceptErr =>
      match loop st with
      | LAccept =>
          mkStart (semaphore st) LTop (cancelled st) (handlers st)
                  (ConnCount st) (OpenConnCount st) (S (acceptErrors st))
      | _ => st
      end
  | MvHandler i => handler_step st i
  end.

(** [Start] under a schedule of moves. *)
Definition Start (s : Server) (sched : list move) : StartState :=
  fold_left start_step sched (start_init s).

(** The connections whose handling has begun and not yet ended. *)
Definition open_handlers (st : StartState) : nat :=
  length (filter (fun h => h = HStart \/ h = HHandling) (handlers st)).

(** ** The wire format, as the protocol states it *)

(** The length of a CONNECT request (or reply) that starts with the bytes
    [s]: the four header bytes, the address field sized by the address type
    (4 bytes for IPv4, 16 for IPv6, one length byte and that many bytes for
    a domain name) and the two port bytes.  A header with another address
    type stands alone. *)
Definition request_frame_len (s : list byte) : nat :=
  match s with
  | _ :: _ :: _ :: atyp :: tl =>
      if bool_decide (atyp = _IP_V4) then 4 + 4 + 2
      else if bool_decide (atyp = _IP_V6) then 4 + 16 + 2
      else if bool_decide (atyp = _DOMAIN_NAME) then
        match tl with
        | l :: _ => 4 + (1 + int_of_byte l) + 2
        | [] => 4 + 1
        end
      else 4
  | _ => 4
  end.


(** An address field that fits the address type [atyp]. *)
Definition wf_addr (atyp : byte) (field : list byte) : Prop :=
  (atyp = _IP_V4 /\ length field = 4) \/
  (atyp = _IP_V6 /\ length field = 16) \/
  (atyp = _DOMAIN_NAME /\
   exists l name, field = l :: name /\ length name = int_of_byte l).

(** The address field as [readSocks5Response] returns it: in the domain
    case the length byte, read into a buffer of its own, is not part of the
    result. *)
Definition returned_field (atyp : byte) (field : list byte) : list byte :=
  if bool_decide (atyp = _DOMAIN_NAME) then drop 1 field else field.

(** The error and the reply code [readSocks5Response] answers a failed
    reply with. *)
Definition reply_failure (rep : byte) : error * byte :=
  match reply_message rep with
  | Some msg => (Errorf msg [], rep)
  | None => (Errorf "unknown reply: %d" [ArgInt (int_of_byte rep)], _GENERAL_SOCKS_FAILURE)
  end.

(** The first [n] coming [Write] calls on [c] succeed. *)
Definition next_writes_succeed (n : nat) (c : Conn) : Prop :=
  forall i e, i < n -> wres c !! i <> Some (Some e).

(** ** The invariant of the relay *)

(** The values thread [t] has sent so far. *)
Definition sends_of (t : tid) (log : list (tid * option error)) : list (option error) :=
  map snd (filter (fun p => fst p = t) log).

(** What the caller has received. *)
Definition received (m : mstate) : list (option error) :=
  match m with
  | MRecv => []
  | MCloseClient e | MCloseRemote e | MReturned e => [e]
  end.

Definition g_ok (t : tid) (err : option error) (g : gstate)
    (log : list (tid * option error)) : Prop :=
  match g with
  | GCopy => sends_of t log = []
  | GSend p => sends_of t log ++ p = copier (format_of t) err
  end.

Definition closes_ok (st : RelayState) : Prop :=
  match main st with
  | MRecv | MCloseClient _ => True
  | MCloseRemote _ => clientClosed st = true
  | MReturned _ => clientClosed st = true /\ remoteClosed st = true
  end.

(** The invariant of a run of [syncConns]: [done] has room for one value;
    the values sent are, in order, the one received and the ones still
    buffered; each goroutine has sent a prefix of what its copy outcome
    makes it send; a [Close] precedes the state that follows it. *)
Definition relay_inv (errC2R errR2C : option error) (st : RelayState) : Prop :=
  cap (done st) = 1 /\
  map snd (sent st) = received (main st) ++ buf (done st) /\
  g_ok T_client_to_remote errC2R (g_c2r st) (sent st) /\
  g_ok T_remote_to_client errR2C (g_r2c st) (sent st) /\
  Forall (fun p => fst p = T_client_to_remote \/ fst p = T_remote_to_client) (sent st) /\
  closes_ok st.

(** ** The resolver's environment *)

(** A candidate whose probe fails. *)
Definition unreachable (reachable : string -> bool) (s : nordServer) : Prop :=
  reachable (chosenAddr s) = false.

(** ** The invariant of admission control *)

(** The connections whose goroutine has ended. *)
Definition exited (st : StartState) : nat :=
  length (filter (fun h => h = HExited) (handlers st)).

(** The invariant of [Start] under a positive limit: every admission and
    every completed release has put one value into the semaphore, and
    nothing takes a value out. *)
Definition start_inv (limit : nat) (st : StartState) : Prop :=
  exists ch, semaphore st = Some ch /\ cap ch = limit /\
    length (buf ch) = length (handlers st) + exited st /\
    length (buf ch) <= limit.

(** ** Example runs *)

(** A pool of three candidates. *)
Definition pool3 : list nordServer :=
  [mkNordServer 1 "a" "a.example" 10 "online";
   mkNordServer 2 "b" "b.example" 10 "online";
   mkNordServer 3 "c" "c.example" 10 "online"].

(** The end-to-end scenario of the specification, with the status byte [00]
    and with the status byte [01]. *)
Definition e2e_server : Server :=
  mkServer "socks5://proxy.example" "user" "secret" 0 true.
Definition e2e_client : Conn :=
  mkConn ([x05; x01; x00] ++ [x05; x01; x00; x01; x5d; xb8; xd8; x22; x00; x50]) [] [].
Definition e2e_remote (status : byte) : Conn :=
  mkConn ([x05; x02; x01; status] ++ [x05; x00; x00; x01; x5d; xb8; xd8; x22; x00; x50]) [] [].

(** A limit of one and two clients: the first connection is admitted and
    handled; its release finds the semaphore full and blocks; the second
    connection is accepted and waits at the acquire, and stays there
    whatever happens next. *)
Definition one_slot : Server := mkServer "" "user" "secret" 1 false.
Definition two_clients : list move :=
  [MvLoop; MvConn; MvLoop; MvHandler 0; MvHandler 0; MvHandler 0; MvLoop; MvConn; MvLoop].

(** ** The pool, probe by probe *)

(** The pool of a call that started on [servers] with [k] draws made, once
    its first [n] probes have failed: each failed probe has removed the
    candidate it had drawn. *)
Fixpoint pool_after (draw : nat -> nat) (n : nat) (servers : list nordServer) (k : nat)
    : list nordServer :=
  match n with
  | 0 => servers
  | S n =>
      pool_after draw n
        (removeAtIndexNoOrder servers (Z.of_nat (Intn draw k (length servers)))) (S k)
  end.

(** The candidate the probe number [n] of that call goes to (counting from
    0), the earlier probes having failed. *)
Definition probed (draw : nat -> nat) (n : nat) (servers : list nordServer) (k : nat)
    : nordServer :=
  pool_after draw n servers k
    !!! Intn draw (k + n) (length (pool_after draw n servers k)).

(** The candidates of the first [n] probes, in the order probed. *)
Definition evictions (draw : nat -> nat) (n : nat) (servers : list nordServer) (k : nat)
    : list nordServer :=
  map (fun j => probed draw j servers k) (seq 0 n).

(** ** The filter, entry by entry *)

(** The entries the filter is after: online, loaded at most 80, and
    listing the technology 7; and how often an entry lists it. *)
Definition socks5_count (server : nordServerEntry) : nat :=
  length (filter (fun tech => Tech.ID tech = 7%Z) (Technologies server)).
Definition eligible (server : nordServerEntry) : Prop :=
  Status (entry server) = "online"%string /\ (Load (entry server) <= 80)%Z /\
  exists tech, tech ∈ Technologies server /\ Tech.ID tech = 7%Z.

(** What one entry adds to the result. *)
Definition kept (server : nordServerEntry) : list nordServer :=
  if bool_decide (Status (entry server) = "online"%string /\ (Load (entry server) <= 80)%Z)
  then replicate (socks5_count server) (entry server)
  else [].

(** ** The counters of [Start] *)

(** The admitted connections whose goroutine is in the state [h]. *)
Definition in_state (h : hstate) (st : StartState) : nat :=
  length (filter (fun h' => h' = h) (handlers st)).

(** The invariant of the two counters: [OpenConnCount] counts the
    goroutines between their two [OpenConnCount.Add] calls, [ConnCount]
    the goroutines that have started. *)
Definition counters_inv (st : StartState) : Prop :=
  OpenConnCount st = Z.of_nat (in_state HHandling st) /\
  (ConnCount st + Z.of_nat (in_state HStart st))%Z = Z.of_nat (length (handlers st)).

(** The connections the accept loop can still admit without looking at
    [ctx] again: one when it is inside [l.Accept()] or at the acquire, or
    at the top of the loop with [ctx] not cancelled. *)
Definition pending (st : StartState) : nat :=
  match loop st with
  | LTop => if cancelled st then 0 else 1
  | LAccept | LAcquire => 1
  | LStopped => 0
  end.
#[global] Instance lstate_eq_dec : EqDecision lstate.
Proof. solve_decision. Defined.

(** ** The end of the copy goroutines *)

(** A copy goroutine has ended: it has made all its sends. *)
Definition finished (g : gstate) : bool :=
  match g with
  | GSend [] => true
  | _ => false
  end.

(* ===================================================================== *)
(** * Part II: properties *)
(* ===================================================================== *)

(** ** Eviction by swap-remove *)

Lemma removeAtIndexNoOrder_out_of_range {T} (a : list T) (idx : Z) :
  (idx < 0 \/ idx >= Z.of_nat (length a))%Z -> removeAtIndexNoOrder a idx = a.
Proof.
  intros H. unfold removeAtIndexNoOrder.
  rewrite bool_decide_eq_true_2; auto.
Qed.

Lemma removeAtIndexNoOrder_in_range {T} (a : list T) (i : nat) (x : T) :
  a !! i = Some x ->
  S (length (removeAtIndexNoOrder a (Z.of_nat i))) = length a /\
  a ≡ₚ x :: removeAtIndexNoOrder a (Z.of_nat i).
Proof.
  intros Hx. pose proof (lookup_lt_Some _ _ _ Hx) as Hlt.
  unfold removeAtIndexNoOrder.
  rewrite bool_decide_eq_false_2 by lia.
  rewrite Nat2Z.id.
  destruct a as [| y a' _] using rev_ind; [simpl in Hlt; lia |].
  rewrite length_app in *. simpl in *.
  replace (length a' + 1 - 1) with (length a') by lia.
  rewrite lookup_app_r by lia. rewrite Nat.sub_diag. simpl.
  destruct (decide (i < length a')) as [Hi | Hi].
  - rewrite insert_app_l by done.
    rewrite take_app_length' by (by rewrite length_insert).
    rewrite length_insert. split; [lia |].
    rewrite lookup_app_l in Hx by done.
    rewrite insert_take_drop by done.
    rewrite <- (take_drop_middle a' i x Hx) at 1.
    rewrite <- app_assoc. simpl. rewrite <- !Permutation_middle.
    by rewrite app_nil_r.
  - assert (i = length a') as -> by lia.
    rewrite list_lookup_middle in Hx by done. injection Hx as <-.
    rewrite insert_app_r_alt by lia. rewrite Nat.sub_diag. simpl.
    rewrite take_app_length. split; [lia |].
    by rewrite <- Permutation_middle, app_nil_r.
Qed.

(** C10.  [removeAtIndexNoOrder] returns the slice as it is for an index
    that is negative or not below the length; for an index in range it
    returns a slice one element shorter that holds, up to order, the
    original elements without the one at that index. *)
Theorem removeAtIndexNoOrder_spec {T : Type} (a : list T) (idx : Z) :
  ((idx < 0 \/ idx >= Z.of_nat (length a))%Z -> removeAtIndexNoOrder a idx = a) /\
  ((0 <= idx < Z.of_nat (length a))%Z ->
     exists x, a !! Z.to_nat idx = Some x /\
       S (length (removeAtIndexNoOrder a idx)) = length a /\
       a ≡ₚ x :: removeAtIndexNoOrder a idx).
Proof.
  split; [apply removeAtIndexNoOrder_out_of_range |].
  intros Hidx.
  destruct (lookup_lt_is_Some_2 a (Z.to_nat idx)) as [x Hx]; [lia |].
  exists x. split; [done |].
  rewrite <- (Z2Nat.id idx) by lia.
  by apply removeAtIndexNoOrder_in_range.
Qed.

Lemma removeAtIndexNoOrder_spec_witness :
  removeAtIndexNoOrder [10; 20; 30; 40]%nat 4 = [10; 20; 30; 40]%nat /\
  removeAtIndexNoOrder [10; 20; 30; 40]%nat (-1) = [10; 20; 30; 40]%nat /\
  removeAtIndexNoOrder [10; 20; 30; 40]%nat 1 = [10; 40; 30]%nat /\
  exists x, [10; 20; 30; 40]%nat !! Z.to_nat 1 = Some x /\
    S (length (removeAtIndexNoOrder [10; 20; 30; 40]%nat 1)) = 4%nat /\
    [10; 20; 30; 40]%nat ≡ₚ x :: removeAtIndexNoOrder [10; 20; 30; 40]%nat 1.
Proof.
  split; [apply (proj1 (removeAtIndexNoOrder_spec [10; 20; 30; 40]%nat 4)); simpl; lia |].
  split; [apply (proj1 (removeAtIndexNoOrder_spec [10; 20; 30; 40]%nat (-1))); simpl; lia |].
  split; [reflexivity |].
  apply (proj2 (removeAtIndexNoOrder_spec [10; 20; 30; 40]%nat 1)); simpl; lia.
Defined.

(** ** Resolver *)

Section ResolverProps.

Variable draw : nat -> nat.
Variable reachable : string -> bool.
Variable discover : result (list nordServer).

Lemma Intn_lt (k n : nat) : n <> 0 -> Intn draw k n < n.
Proof. intros. unfold Intn. by apply Nat.mod_upper_bound. Qed.

(** One failed probe: the loop goes on with the pool from which exactly the
    probed entry is gone. *)
Lemma probe_loop_evict (fuel : nat) (servers : list nordServer) (k : nat) :
  servers <> [] ->
  let i := Intn draw k (length servers) in
  unreachable reachable (servers !!! i) ->
  probe_loop draw reachable (S fuel) servers k =
    probe_loop draw reachable fuel (removeAtIndexNoOrder servers (Z.of_nat i)) (S k) /\
  S (length (removeAtIndexNoOrder servers (Z.of_nat i))) = length servers /\
  servers ≡ₚ (servers !!! i) :: removeAtIndexNoOrder servers (Z.of_nat i).
Proof.
  intros Hne i Hun.
  assert (length servers <> 0) as Hlen by (by destruct servers).
  assert (i < length servers) as Hi by (by apply Intn_lt).
  split.
  - simpl. destruct (decide (length servers = 0)); [done |].
    fold i. unfold unreachable in Hun. by rewrite Hun.
  - apply removeAtIndexNoOrder_in_range.
    by apply list_lookup_lookup_total_lt.
Qed.

(** The loop ends within [length servers + 1] rounds; what it evicted was
    unreachable, and it ends either on a reachable entry that is still in
    the pool or on an empty pool. *)
Lemma probe_loop_total (fuel : nat) :
  forall (servers : list nordServer) (k : nat),
  length servers < fuel ->
  exists r servers' k' evicted,
    probe_loop draw reachable fuel servers k = Some (r, servers', k') /\
    servers ≡ₚ evicted ++ servers' /\
    Forall (unreachable reachable) evicted /\
    ((exists s, r = Ok (chosenAddr s) /\ s ∈ servers' /\ reachable (chosenAddr s) = true) \/
     (r = Err (Errorf "no socks server found" []) /\ servers' = [])).
Proof.
  induction fuel as [| fuel IH]; intros servers k Hfuel; [lia |].
  destruct servers as [| s0 rest] eqn:Hs.
  { exists (Err (Errorf "no socks server found" [])), [], k, [].
    split; [done |]. split; [done |]. split; [constructor | by right]. }
  rewrite <- Hs in *. assert (servers <> []) as Hne by (by rewrite Hs).
  assert (length servers <> 0) as Hlen by (by rewrite Hs).
  set (i := Intn draw k (length servers)).
  assert (i < length servers) as Hi by (by apply Intn_lt).
  destruct (reachable (chosenAddr (servers !!! i))) eqn:Hr.
  - exists (Ok (chosenAddr (servers !!! i))), servers, (S k), [].
    split; [| split; [done | split; [constructor | left]]].
    + simpl. destruct (decide (length servers = 0)); [done |]. fold i. by rewrite Hr.
    + exists (servers !!! i). split; [done | split; [| done]].
      apply list_elem_of_lookup. exists i. by apply list_lookup_lookup_total_lt.
  - destruct (probe_loop_evict fuel servers k Hne Hr) as (Heq & Hlen' & Hperm).
    fold i in Heq, Hlen', Hperm.
    destruct (IH (removeAtIndexNoOrder servers (Z.of_nat i)) (S k))
      as (r & servers' & k' & evicted & Hrun & Hp & Hev & Hend); [lia |].
    exists r, servers', k', (servers !!! i :: evicted).
    split; [by rewrite Heq |]. split; [| split; [by constructor | done]].
    etrans; [exact Hperm |]. simpl. by apply perm_skip.
Qed.

Lemma elem_of_perm_r {A} (x : A) (l l1 l2 : list A) :
  l ≡ₚ l1 ++ l2 -> x ∈ l2 -> x ∈ l.
Proof. intros Hp Hx. rewrite Hp. apply elem_of_app. by right. Qed.

Lemma probed_0 (servers : list nordServer) (k : nat) :
  probed draw 0 servers k = servers !!! Intn draw k (length servers).
Proof. unfold probed. simpl. by rewrite Nat.add_0_r. Qed.

Lemma probed_S (n : nat) (servers : list nordServer) (k : nat) :
  probed draw (S n) servers k
  = probed draw n
      (removeAtIndexNoOrder servers (Z.of_nat (Intn draw k (length servers)))) (S k).
Proof. unfold probed. simpl. by rewrite Nat.add_succ_r. Qed.

Lemma evictions_S (n : nat) (servers : list nordServer) (k : nat) :
  evictions draw (S n) servers k
  = probed draw 0 servers k ::
    evictions draw n
      (removeAtIndexNoOrder servers (Z.of_nat (Intn draw k (length servers)))) (S k).
Proof.
  unfold evictions. simpl. f_equal.
  rewrite <- seq_shift, map_map. apply map_ext. intros j. apply probed_S.
Qed.

(** The loop, probe by probe: it stops at the first probe that succeeds,
    or when the pool is used up, and what it leaves is the pool after the
    failed probes. *)
Lemma probe_loop_trace (fuel : nat) :
  forall (servers : list nordServer) (k : nat),
  length servers < fuel ->
  exists n,
    length (pool_after draw n servers k) + n = length servers /\
    servers ≡ₚ evictions draw n servers k ++ pool_after draw n servers k /\
    (forall j, j < n -> unreachable reachable (probed draw j servers k)) /\
    ((probed draw n servers k ∈ pool_after draw n servers k /\
      reachable (chosenAddr (probed draw n servers k)) = true /\
      probe_loop draw reachable fuel servers k
        = Some (Ok (chosenAddr (probed draw n servers k)),
                pool_after draw n servers k, k + n + 1)) \/
     (pool_after draw n servers k = [] /\
      probe_loop draw reachable fuel servers k
        = Some (Err (Errorf "no socks server found" []), [], k + n))).
Proof.
  induction fuel as [| fuel IH]; intros servers k Hfuel; [lia |].
  destruct (decide (length servers = 0)) as [H0 | Hlen].
  { exists 0. simpl. split; [lia |]. split; [done |]. split; [intros j Hj; lia |].
    right. destruct servers; [| done]. split; [done |].
    by rewrite Nat.add_0_r. }
  set (i := Intn draw k (length servers)).
  assert (i < length servers) as Hi by (by apply Intn_lt).
  destruct (reachable (chosenAddr (servers !!! i))) eqn:Hr.
  - exists 0. simpl. split; [lia |]. split; [done |]. split; [intros j Hj; lia |].
    left. rewrite probed_0. fold i. split; [| split; [done |]].
    + apply list_elem_of_lookup. exists i. by apply list_lookup_lookup_total_lt.
    + destruct (decide (length servers = 0)); [done |]. fold i. rewrite Hr.
      by rewrite Nat.add_0_r, Nat.add_1_r.
  - assert (servers <> []) as Hne by (by destruct servers).
    destruct (probe_loop_evict fuel servers k Hne Hr)
      as (Heq & Hlen' & Hperm).
    fold i in Heq, Hlen', Hperm.
    destruct (IH (removeAtIndexNoOrder servers (Z.of_nat i)) (S k))
      as (n & Hcount & Hp & Hun & Hend); [lia |].
    exists (S n).
    change (pool_after draw (S n) servers k)
      with (pool_after draw n (removeAtIndexNoOrder servers (Z.of_nat i)) (S k)).
    rewrite evictions_S, probed_S, probed_0. fold i.
    split; [lia |]. split.
    { etrans; [exact Hperm |]. simpl. by apply perm_skip. }
    split.
    { intros [| j] Hj; [by rewrite probed_0 | rewrite probed_S; apply Hun; lia]. }
    rewrite Heq.
    replace (k + S n) with (S k + n) by lia.
    replace (k + S n + 1) with (S k + n + 1) by lia.
    exact Hend.
Qed.

(** C4.  A call of [FindNordVpnServer] probes one drawn candidate after
    the other.  On a pool with a reachable candidate it stops at the first
    probe that succeeds, say after [n] failed ones, and returns the
    address [host:1080] of the candidate of that probe, which is reachable
    and still in the pool; the pool it leaves is the pool it found with
    the candidates of the [n] failed probes removed, each one by the
    failed probe that drew it, and every other entry kept: the candidates
    removed and the pool left make up the pool found, and the candidates
    removed are exactly the ones probed and found unreachable.  On a pool
    whose candidates are all unreachable (the cached pool, or the freshly
    discovered one when the cache was empty) it probes and removes every
    candidate, fails with the no-server-found error and leaves the pool
    empty.  A single failed probe removes the probed entry and keeps
    every other one, and the call goes on as a call on the pool left. *)
Theorem FindNordVpnServer_resolves (servers : list nordServer) (k : nat) :
  (Exists (fun s => reachable (chosenAddr s) = true) servers ->
     exists n s,
       s = probed draw n servers k /\
       FindNordVpnServer draw reachable discover servers k
         = Some (Ok (Hostname s +:+ ":1080")%string, pool_after draw n servers k, k + n + 1) /\
       reachable (Hostname s +:+ ":1080")%string = true /\
       s ∈ servers /\ s ∈ pool_after draw n servers k /\
       length (pool_after draw n servers k) + n = length servers /\
       servers ≡ₚ evictions draw n servers k ++ pool_after draw n servers k /\
       Forall (unreachable reachable) (evictions draw n servers k)) /\
  (forall pool,
     (servers <> [] /\ pool = servers) \/ (servers = [] /\ discover = Ok pool) ->
     Forall (unreachable reachable) pool ->
     FindNordVpnServer draw reachable discover servers k
       = Some (Err (Errorf "no socks server found" []), [], k + length pool) /\
     pool_after draw (length pool) pool k = [] /\
     pool ≡ₚ evictions draw (length pool) pool k) /\
  (forall fuel,
     servers <> [] ->
     let i := Intn draw k (length servers) in
     unreachable reachable (servers !!! i) ->
     probe_loop draw reachable (S fuel) servers k
       = probe_loop draw reachable fuel (removeAtIndexNoOrder servers (Z.of_nat i)) (S k) /\
     S (length (removeAtIndexNoOrder servers (Z.of_nat i))) = length servers /\
     servers ≡ₚ (servers !!! i) :: removeAtIndexNoOrder servers (Z.of_nat i) /\
     FindNordVpnServer draw reachable discover servers k
       = FindNordVpnServer draw reachable (Ok []) (removeAtIndexNoOrder servers (Z.of_nat i))
           (S k)).
Proof.
  assert (forall n pool, Forall (unreachable reachable) (evictions draw n pool k) <->
            forall j, j < n -> unreachable reachable (probed draw j pool k)) as Hev.
  { intros n pool. unfold evictions. rewrite Forall_map, Forall_seq. simpl.
    split; intros H j Hj; apply H; lia. }
  split; [| split].
  - intros Hex.
    assert (servers <> []) as Hne by (intros ->; by apply Exists_nil in Hex).
    unfold FindNordVpnServer.
    destruct (decide (length servers = 0)) as [H0 | _]; [by destruct servers |].
    destruct (probe_loop_trace (S (length servers)) servers k)
      as (n & Hcount & Hp & Hun & [(Hin & Hr & Hrun) | (Hnil & Hrun)]); [lia | |].
    + exists n, (probed draw n servers k).
      split; [done |]. split; [exact Hrun |]. split; [exact Hr |].
      split; [by apply (elem_of_perm_r _ _ _ _ Hp) |].
      split; [done |]. split; [done |]. split; [done |]. by apply Hev.
    + exfalso. rewrite Hnil, app_nil_r in Hp. rewrite Hp in Hex.
      apply Exists_exists in Hex as (s & Hin & Hr).
      apply Hev in Hun. rewrite Forall_forall in Hun. specialize (Hun s Hin).
      unfold unreachable in Hun. congruence.
  - intros pool Hpool Hall. unfold FindNordVpnServer.
    assert (probe_loop draw reachable (S (length pool)) pool k
              = Some (Err (Errorf "no socks server found" []), [], k + length pool) /\
            pool_after draw (length pool) pool k = [] /\
            pool ≡ₚ evictions draw (length pool) pool k) as Hloop.
    { destruct (probe_loop_trace (S (length pool)) pool k)
        as (n & Hcount & Hp & Hun & [(Hin & Hr & Hrun) | (Hnil & Hrun)]); [lia | |].
      - exfalso. rewrite Forall_forall in Hall.
        assert (probed draw n pool k ∈ pool) as Hs by (by apply (elem_of_perm_r _ _ _ _ Hp)).
        specialize (Hall _ Hs). unfold unreachable in Hall. congruence.
      - rewrite Hnil in Hcount. simpl in Hcount. subst n.
        split; [exact Hrun |]. split; [exact Hnil |].
        by rewrite Hnil, app_nil_r in Hp. }
    destruct Hpool as [[Hne ->] | [-> ->]].
    + destruct (decide (length servers = 0)) as [H0 | _]; [by destruct servers | done].
    + done.
  - intros fuel Hne i Hun.
    destruct (probe_loop_evict fuel servers k Hne Hun) as (Heq & Hlen & Hperm).
    fold i in Heq, Hlen, Hperm.
    split; [done |]. split; [done |]. split; [done |].
    unfold FindNordVpnServer.
    destruct (decide (length servers = 0)) as [H0 | _]; [by destruct servers |].
    destruct (probe_loop_evict (length servers) servers k Hne Hun)
      as (Heq' & _ & _).
    fold i in Heq'. rewrite Heq'.
    destruct (decide (length (removeAtIndexNoOrder servers (Z.of_nat i)) = 0)) as [H0 | Hn0].
    + destruct (removeAtIndexNoOrder servers (Z.of_nat i)); [| done].
      simpl in Hlen. by rewrite <- Hlen.
    + by rewrite Hlen.
Qed.

End ResolverProps.

Lemma FindNordVpnServer_resolves_witness :
  (exists n s,
     s = probed (fun k => k) n pool3 0 /\
     FindNordVpnServer (fun k => k) (String.eqb "b.example:1080") (Err io_EOF) pool3 0
       = Some (Ok (Hostname s +:+ ":1080")%string, pool_after (fun k => k) n pool3 0, 0 + n + 1) /\
     String.eqb "b.example:1080" (Hostname s +:+ ":1080")%string = true /\
     s ∈ pool3 /\ s ∈ pool_after (fun k => k) n pool3 0 /\
     length (pool_after (fun k => k) n pool3 0) + n = length pool3 /\
     pool3 ≡ₚ evictions (fun k => k) n pool3 0 ++ pool_after (fun k => k) n pool3 0 /\
     Forall (unreachable (String.eqb "b.example:1080")) (evictions (fun k => k) n pool3 0)) /\
  FindNordVpnServer (fun k => k) (String.eqb "b.example:1080") (Err io_EOF) pool3 0
    = Some (Ok "b.example:1080"%string,
            [mkNordServer 3 "c" "c.example" 10 "online";
             mkNordServer 2 "b" "b.example" 10 "online"], 2) /\
  FindNordVpnServer (fun k => k) (fun _ => false) (Err io_EOF) pool3 0
    = Some (Err (Errorf "no socks server found" []), [], 0 + length pool3).
Proof.
  split; [| split].
  - apply (proj1 (FindNordVpnServer_resolves (fun k => k) (String.eqb "b.example:1080")
                    (Err io_EOF) pool3 0)).
    apply Exists_cons_tl, Exists_cons_hd. reflexivity.
  - reflexivity.
  - apply (proj1 (proj2 (FindNordVpnServer_resolves (fun k => k) (fun _ => false)
                           (Err io_EOF) pool3 0)) pool3).
    + left. split; [discriminate | reflexivity].
    + repeat constructor.
Defined.

(** ** The I/O primitives *)

Lemma ReadFull_ok (n : nat) (c : Conn) :
  n <= length (rd c) ->
  ReadFull n c = (Ok (take n (rd c)), mkConn (drop n (rd c)) (wr c) (wres c)).
Proof. intros H. unfold ReadFull. by rewrite decide_True. Qed.

Lemma ReadFull_short (n : nat) (c : Conn) :
  length (rd c) < n ->
  ReadFull n c = (Err (match rd c with [] => io_EOF | _ => io_ErrUnexpectedEOF end),
                  mkConn [] (wr c) (wres c)).
Proof. intros H. unfold ReadFull. rewrite decide_False; [done | lia]. Qed.

Lemma ReadFull_app (pre rest : list byte) (w : list byte) (ws : list (option error)) :
  ReadFull (length pre) (mkConn (pre ++ rest) w ws) = (Ok pre, mkConn rest w ws).
Proof.
  rewrite ReadFull_ok by (simpl; rewrite length_app; lia).
  simpl. by rewrite take_app_length, drop_app_length.
Qed.

Lemma snd_Write (b : list byte) (c : Conn) :
  snd (Write b c) = mkConn (rd c) (wr c ++ b) (tail (wres c)).
Proof. unfold Write. by destruct (wres c) as [| [e |] ?]. Qed.

(** ** Request framing *)

Lemma request_frame_len_min (s : list byte) : 4 <= request_frame_len s.
Proof.
  destruct s as [| b0 [| b1 [| b2 [| b3 tl]]]]; simpl; try lia.
  repeat case_bool_decide; try lia. destruct tl; lia.
Qed.

(** Unfolding the monad, and a case split on a byte comparison. *)
Ltac io_unfold :=
  unfold bind, wrapErr, catch, throw, ret, ignore, on_client, on_remote.

Ltac byte_case b c H :=
  destruct (decide (b = c)) as [H | H];
  [ rewrite (bool_decide_eq_true_2 _ H) | rewrite (bool_decide_eq_false_2 _ H) ].

Lemma readSocks5Request_consumes (c : Conn) :
  exists consumed,
    rd c = consumed ++ rd (snd (readSocks5Request c)) /\
    length consumed <= request_frame_len (rd c) /\
    forall req, fst (readSocks5Request c) = Ok req ->
      req = consumed /\ length consumed = request_frame_len (rd c).
Proof.
  destruct c as [s w ws].
  pose proof (request_frame_len_min s) as Hmin.
  destruct s as [| b0 [| b1 [| b2 [| b3 tl]]]];
    try (eexists; split; [by rewrite app_nil_r | split; [simpl; lia | by intros req H]]).
  unfold readSocks5Request, IPv4len, IPv6len. io_unfold.
  rewrite ReadFull_ok by (simpl; lia).
  cbn [rd wr wres]. rewrite !drop_0 || idtac.
  change (take 4 (b0 :: b1 :: b2 :: b3 :: tl)) with [b0; b1; b2; b3].
  change (drop 4 (b0 :: b1 :: b2 :: b3 :: tl)) with tl.
  change ([b0; b1; b2; b3] !!! 0) with b0.
  change ([b0; b1; b2; b3] !!! 1) with b1.
  change ([b0; b1; b2; b3] !!! 3) with b3.
  byte_case b0 _SOCKS_VERSION Hv; cbn [negb].
  2: { exists [b0; b1; b2; b3]; simpl.
       split; [reflexivity | split; [simpl in *; lia | intros ? ?; discriminate]]. }
  byte_case b1 _CONNECT Hc; cbn [negb].
  2: { exists [b0; b1; b2; b3]; simpl. rewrite snd_Write.
       split; [reflexivity | split; [simpl in *; lia | intros ? ?; discriminate]]. }
  unfold request_frame_len in *.
  byte_case b3 _IP_V4 H4.
  { destruct (decide (4 + 2 <= length tl)) as [Hl | Hl].
    - rewrite ReadFull_ok by done. cbn [rd fst snd].
      exists ([b0; b1; b2; b3] ++ take (4 + 2) tl).
      split; [by rewrite <- app_assoc, take_drop |].
      rewrite length_app, length_take, Nat.min_l by done.
      cbn [length].
      split; [lia |]. intros req [= <-]. split; [done | lia].
    - rewrite ReadFull_short by (simpl; lia). rewrite snd_Write. cbn [rd fst snd].
      exists (b0 :: b1 :: b2 :: b3 :: tl). split; [by rewrite app_nil_r |].
      simpl. split; [lia | by intros req H]. }
  assert (b3 <> _IP_V4) as H4' by done.
  byte_case b3 _DOMAIN_NAME Hd.
  { rewrite (bool_decide_eq_false_2 (b3 = _IP_V6)) in * by (by rewrite Hd).
    destruct tl as [| l tl'].
    - rewrite ReadFull_short by (simpl; lia). cbn [rd fst snd].
      exists [b0; b1; b2; b3]. split; [done |]. simpl. split; [lia | by intros req H].
    - rewrite ReadFull_ok by (simpl; lia). cbn [rd wr wres].
      change (take 1 (l :: tl')) with [l]. change (drop 1 (l :: tl')) with tl'.
      change ([l] !!! 0) with l.
      destruct (decide (int_of_byte l + 2 <= length tl')) as [Hl | Hl].
      + rewrite ReadFull_ok by done. cbn [rd fst snd].
        exists (([b0; b1; b2; b3] ++ [l]) ++ take (int_of_byte l + 2) tl').
        split; [by rewrite <- !app_assoc; simpl; rewrite take_drop |].
        rewrite !length_app, length_take, Nat.min_l by done. cbn [length].
        split; [lia |]. intros req [= <-]. split; [done | lia].
      + rewrite ReadFull_short by (simpl; lia). rewrite snd_Write. cbn [rd fst snd].
        exists (b0 :: b1 :: b2 :: b3 :: l :: tl'). split; [by rewrite app_nil_r |].
        simpl. split; [lia | by intros req H]. }
  byte_case b3 _IP_V6 H6.
  { destruct (decide (16 + 2 <= length tl)) as [Hl | Hl].
    - rewrite ReadFull_ok by done. cbn [rd fst snd].
      exists ([b0; b1; b2; b3] ++ take (16 + 2) tl).
      split; [by rewrite <- app_assoc, take_drop |].
      rewrite length_app, length_take, Nat.min_l by done.
      cbn [length].
      split; [lia |]. intros req [= <-]. split; [done | lia].
    - rewrite ReadFull_short by (simpl; lia). rewrite snd_Write. cbn [rd fst snd].
      exists (b0 :: b1 :: b2 :: b3 :: tl). split; [by rewrite app_nil_r |].
      simpl. split; [lia | by intros req H]. }
  exists [b0; b1; b2; b3]. simpl. rewrite snd_Write.
  split; [done |]. simpl. split; [lia | by intros req H].
Qed.

Lemma Write_ok (b : list byte) (c : Conn) (n : nat) :
  next_writes_succeed (S n) c ->
  Write b c = (Ok tt, mkConn (rd c) (wr c ++ b) (tail (wres c))) /\
  next_writes_succeed n (mkConn (rd c) (wr c ++ b) (tail (wres c))).
Proof.
  intros H. split.
  - unfold Write. destruct (wres c) as [| [e |] ws] eqn:Hw; try done.
    exfalso. apply (H 0 e); [lia |]. by rewrite Hw.
  - intros i e Hi. simpl. rewrite lookup_tail. apply H. lia.
Qed.

Lemma wf_addr_frame (b0 b1 b2 atyp : byte) (field tl : list byte) :
  wf_addr atyp field ->
  request_frame_len ([b0; b1; b2; atyp] ++ field ++ tl) = 4 + length field + 2.
Proof.
  intros [[-> Hl] | [[-> Hl] | (-> & l & name & -> & Hl)]]; simpl.
  - lia.
  - lia.
  - lia.
Qed.

(** A well-formed request is read whole, and nothing after it. *)
Lemma readSocks5Request_wf (rsv atyp : byte) (field port tl w : list byte) ws :
  wf_addr atyp field -> length port = 2 ->
  readSocks5Request (mkConn ([_SOCKS_VERSION; _CONNECT; rsv; atyp] ++ field ++ port ++ tl) w ws)
    = (Ok ([_SOCKS_VERSION; _CONNECT; rsv; atyp] ++ field ++ port), mkConn tl w ws).
Proof.
  intros Hwf Hport.
  unfold readSocks5Request, IPv4len, IPv6len. io_unfold.
  rewrite (ReadFull_app [_SOCKS_VERSION; _CONNECT; rsv; atyp]).
  change ([_SOCKS_VERSION; _CONNECT; rsv; atyp] !!! 0) with _SOCKS_VERSION.
  change ([_SOCKS_VERSION; _CONNECT; rsv; atyp] !!! 1) with _CONNECT.
  change ([_SOCKS_VERSION; _CONNECT; rsv; atyp] !!! 3) with atyp.
  rewrite !bool_decide_eq_true_2 by done. cbn [negb].
  destruct Hwf as [[-> Hl] | [[-> Hl] | (-> & l & name & -> & Hl)]].
  - rewrite bool_decide_eq_true_2 by done.
    rewrite (app_assoc field port tl).
    replace (4 + 2) with (length (field ++ port)) by (rewrite length_app; lia).
    by rewrite ReadFull_app.
  - rewrite bool_decide_eq_false_2 by done.
    rewrite bool_decide_eq_false_2 by done.
    rewrite bool_decide_eq_true_2 by done.
    rewrite (app_assoc field port tl).
    replace (16 + 2) with (length (field ++ port)) by (rewrite length_app; lia).
    by rewrite ReadFull_app.
  - rewrite bool_decide_eq_false_2 by done.
    rewrite bool_decide_eq_true_2 by done.
    rewrite (ReadFull_app [l] (name ++ port ++ tl)).
    change ([l] !!! 0) with l.
    rewrite (app_assoc name port tl).
    replace (int_of_byte l + 2) with (length (name ++ port)) by (rewrite length_app; lia).
    rewrite ReadFull_app. by rewrite <- app_assoc.
Qed.

(** C2.  Reading a request consumes a prefix of the stream that is never
    longer than the frame the header announces: four header bytes, the
    address field (4 bytes for IPv4, 16 for IPv6, a length byte [l] and
    [int(l)] bytes for a domain name) and two port bytes.  When the read
    succeeds the prefix is the whole frame and is the request returned; a
    well-formed request followed by anything is read whole and what follows
    it stays in the stream, for every value of the length byte. *)
Theorem readSocks5Request_reads_the_frame :
  (forall c : Conn,
     exists consumed,
       rd c = consumed ++ rd (snd (readSocks5Request c)) /\
       length consumed <= request_frame_len (rd c) /\
       forall req, fst (readSocks5Request c) = Ok req ->
         req = consumed /\ length consumed = request_frame_len (rd c)) /\
  (forall (rsv atyp : byte) (field port tl w : list byte) ws,
     wf_addr atyp field -> length port = 2 ->
     let frame := [_SOCKS_VERSION; _CONNECT; rsv; atyp] ++ field ++ port in
     length frame = 4 + length field + 2 /\
     request_frame_len (frame ++ tl) = length frame /\
     readSocks5Request (mkConn (frame ++ tl) w ws) = (Ok frame, mkConn tl w ws)) /\
  (forall (rsv l : byte) (name port tl w : list byte) ws,
     length name = int_of_byte l -> length port = 2 ->
     readSocks5Request
       (mkConn ([_SOCKS_VERSION; _CONNECT; rsv; _DOMAIN_NAME] ++ (l :: name) ++ port ++ tl) w ws)
     = (Ok ([_SOCKS_VERSION; _CONNECT; rsv; _DOMAIN_NAME] ++ (l :: name) ++ port),
        mkConn tl w ws) /\
     length ([_SOCKS_VERSION; _CONNECT; rsv; _DOMAIN_NAME] ++ (l :: name) ++ port)
     = 4 + (1 + int_of_byte l) + 2).
Proof.
  split; [exact readSocks5Request_consumes | split].
  - intros rsv atyp field port tl w ws Hwf Hport frame.
    assert (length frame = 4 + length field + 2) as Hlen.
    { unfold frame. rewrite !length_app. simpl. lia. }
    split; [done |]. split.
    + unfold frame. rewrite <- !app_assoc.
      rewrite (wf_addr_frame _ _ _ _ _ _ Hwf).
      rewrite !length_app. simpl. lia.
    + unfold frame. rewrite <- !app_assoc. by apply readSocks5Request_wf.
  - intros rsv l name port tl w ws Hname Hport. split.
    + apply readSocks5Request_wf; [| done].
      right; right. split; [done |]. by exists l, name.
    + rewrite !length_app. simpl. lia.
Qed.

(** The two extreme length bytes: an empty domain name and one of 255
    bytes, each followed by two bytes that are not part of the request. *)
Lemma readSocks5Request_reads_the_frame_witness :
  (readSocks5Request
     (mkConn ([x05; x01; x00; x03] ++ [x00] ++ [x00; x50] ++ [xaa; xbb]) [] [])
   = (Ok ([x05; x01; x00; x03] ++ [x00] ++ [x00; x50]), mkConn [xaa; xbb] [] []) /\
   length ([x05; x01; x00; x03] ++ [x00] ++ [x00; x50]) = 4 + (1 + 0) + 2) /\
  (readSocks5Request
     (mkConn ([x05; x01; x00; x03] ++ (xff :: replicate 255 x61) ++ [x01; xbb] ++ [xaa; xbb])
             [] [])
   = (Ok ([x05; x01; x00; x03] ++ (xff :: replicate 255 x61) ++ [x01; xbb]),
      mkConn [xaa; xbb] [] []) /\
   length ([x05; x01; x00; x03] ++ (xff :: replicate 255 x61) ++ [x01; xbb])
   = 4 + (1 + 255) + 2).
Proof.
  split.
  - apply (proj2 (proj2 readSocks5Request_reads_the_frame)
             x00 x00 [] [x00; x50] [xaa; xbb] [] []); reflexivity.
  - apply (proj2 (proj2 readSocks5Request_reads_the_frame)
             x00 xff (replicate 255 x61) [x01; xbb] [xaa; xbb] [] []); reflexivity.
Defined.

(** ** Greeting *)

Lemma contains_elem_of {T : Type} `{EqDecision T} (slice : list T) (item : T) :
  contains slice item = true <-> item ∈ slice.
Proof.
  induction slice as [| s rest IH]; simpl.
  - split; [done | by intros ?%elem_of_nil].
  - destruct (decide (s = item)) as [-> | Hne].
    + split; [intros _; left | done].
    + rewrite IH. split; [by right |].
      intros [? | ?]%elem_of_cons; [congruence | done].
Qed.

Lemma snd_ignore_Write (b : list byte) (c : Conn) :
  ignore (Write b) c = (Ok tt, mkConn (rd c) (wr c ++ b) (tail (wres c))).
Proof. unfold ignore. by rewrite snd_Write. Qed.

Lemma greetClient_run (n : byte) (methods tl w : list byte) ws :
  length methods = int_of_byte n ->
  greetClient (mkConn (_SOCKS_VERSION :: n :: methods ++ tl) w ws) =
    if contains methods _NO_AUTHENTICATION
    then (Ok tt, mkConn tl (w ++ [_SOCKS_VERSION; _NO_AUTHENTICATION]) (tail ws))
    else (Err (Errorf "no supported authentication methods" []),
          mkConn tl (w ++ [_SOCKS_VERSION; _NO_ACCEPTABLE_METHODS]) (tail ws)).
Proof.
  intros Hlen. unfold greetClient. unfold bind at 1. unfold wrapErr, catch.
  rewrite (ReadFull_app [_SOCKS_VERSION; n] (methods ++ tl)).
  change ([_SOCKS_VERSION; n] !!! 0) with _SOCKS_VERSION.
  change ([_SOCKS_VERSION; n] !!! 1) with n.
  rewrite bool_decide_eq_true_2 by done. cbn [negb].
  unfold bind at 1. rewrite <- Hlen, ReadFull_app.
  destruct (contains methods _NO_AUTHENTICATION); cbn [negb];
    unfold bind; by rewrite snd_ignore_Write.
Qed.

(** C3.  A greeting with version 5 whose method list offers "no
    authentication" is answered with the two bytes [05 00] and the greeting
    succeeds; one whose list does not offer it (the empty list included) is
    answered with [05 ff], the greeting fails, and the handler returns after
    this stage without a connection to an upstream. *)
Theorem greetClient_method_selection (n : byte) (methods tl w : list byte)
    (ws : list (option error)) :
  length methods = int_of_byte n ->
  let c := mkConn (_SOCKS_VERSION :: n :: methods ++ tl) w ws in
  (_NO_AUTHENTICATION ∈ methods ->
     greetClient c = (Ok tt, mkConn tl (w ++ [x05; x00]) (tail ws))) /\
  (_NO_AUTHENTICATION ∉ methods ->
     greetClient c = (Err (Errorf "no supported authentication methods" []),
                      mkConn tl (w ++ [x05; xff]) (tail ws)) /\
     forall s finder dial remoteAddr relay,
       let h := handleConnection s finder dial remoteAddr relay c in
       stages h = [StGreet] /\ remote_after h = None /\
       client_after h = mkConn tl (w ++ [x05; xff]) (tail ws)).
Proof.
  intros Hlen c. unfold c. split.
  - intros Hin. rewrite greetClient_run by done.
    by rewrite (proj2 (contains_elem_of methods _NO_AUTHENTICATION) Hin).
  - intros Hnot.
    assert (contains methods _NO_AUTHENTICATION = false) as Hc.
    { destruct (contains methods _NO_AUTHENTICATION) eqn:E; [| done].
      by apply contains_elem_of in E. }
    split.
    + rewrite greetClient_run by done. by rewrite Hc.
    + intros s finder dial remoteAddr relay. unfold handleConnection.
      rewrite greetClient_run by done. by rewrite Hc.
Qed.

Lemma greetClient_method_selection_witness :
  greetClient (mkConn (x05 :: x02 :: [x02; x00] ++ [x05; x01]) [] [])
    = (Ok tt, mkConn [x05; x01] ([] ++ [x05; x00]) (tail [])) /\
  greetClient (mkConn (x05 :: x00 :: [] ++ [x05; x01]) [] [])
    = (Err (Errorf "no supported authentication methods" []),
       mkConn [x05; x01] ([] ++ [x05; xff]) (tail [])).
Proof.
  split.
  - apply (proj1 (greetClient_method_selection x02 [x02; x00] [x05; x01] [] [] eq_refl)).
    apply list_elem_of_In. simpl. auto.
  - apply (proj2 (greetClient_method_selection x00 [] [x05; x01] [] [] eq_refl)).
    apply not_elem_of_nil.
Defined.

(** ** Rejected requests *)

(** C6.  The header checks are made in order: version, command, address
    type.  A request with version 5 whose command is not CONNECT is
    answered with the reply [05 07] (command not supported) and reading it
    fails with the unsupported-command error; a request with version 5 and
    command CONNECT whose address type is none of IPv4, domain name and
    IPv6 is answered with [05 08] (address type not supported) and reading
    it fails with the unknown-address-type error.  In both cases
    [sendRemoteRequest] fails and leaves the upstream connection as it
    found it. *)
Theorem readSocks5Request_rejects (cmd rsv atyp : byte) (tl w : list byte)
    (ws : list (option error)) (remoteConn : Conn) :
  (cmd <> _CONNECT ->
     let c := mkConn (_SOCKS_VERSION :: cmd :: rsv :: atyp :: tl) w ws in
     let c' := mkConn tl (w ++ [x05; _COMMAND_NOT_SUPPORTED]) (tail ws) in
     let e := Errorf "unsupported command: %d" [ArgInt (int_of_byte cmd)] in
     readSocks5Request c = (Err e, c') /\
     sendRemoteRequest (mkConns c remoteConn)
       = (Err (ErrorfW "error reading request from client: %w" [] e),
          mkConns c' remoteConn)) /\
  (atyp <> _IP_V4 -> atyp <> _DOMAIN_NAME -> atyp <> _IP_V6 ->
     let c := mkConn (_SOCKS_VERSION :: _CONNECT :: rsv :: atyp :: tl) w ws in
     let c' := mkConn tl (w ++ [x05; _ADDRESS_TYPE_NOT_SUPPORTED]) (tail ws) in
     let e := Errorf "unknown address type: %d" [ArgInt (int_of_byte atyp)] in
     readSocks5Request c = (Err e, c') /\
     sendRemoteRequest (mkConns c remoteConn)
       = (Err (ErrorfW "error reading request from client: %w" [] e),
          mkConns c' remoteConn)).
Proof.
  split.
  - intros Hcmd c c' e.
    assert (readSocks5Request c = (Err e, c')) as Hrun.
    { unfold c, readSocks5Request. unfold bind at 1. unfold wrapErr, catch.
      rewrite (ReadFull_app [_SOCKS_VERSION; cmd; rsv; atyp] tl).
      change ([_SOCKS_VERSION; cmd; rsv; atyp] !!! 0) with _SOCKS_VERSION.
      change ([_SOCKS_VERSION; cmd; rsv; atyp] !!! 1) with cmd.
      rewrite bool_decide_eq_true_2 by done.
      rewrite bool_decide_eq_false_2 by done. cbn [negb].
      unfold bind. by rewrite snd_ignore_Write. }
    split; [done |].
    unfold sendRemoteRequest. unfold bind at 1. unfold wrapErr, catch, on_client.
    cbn [client remote]. by rewrite Hrun.
  - intros H4 Hd H6 c c' e.
    assert (readSocks5Request c = (Err e, c')) as Hrun.
    { unfold c, readSocks5Request. unfold bind at 1. unfold wrapErr, catch.
      rewrite (ReadFull_app [_SOCKS_VERSION; _CONNECT; rsv; atyp] tl).
      change ([_SOCKS_VERSION; _CONNECT; rsv; atyp] !!! 0) with _SOCKS_VERSION.
      change ([_SOCKS_VERSION; _CONNECT; rsv; atyp] !!! 1) with _CONNECT.
      change ([_SOCKS_VERSION; _CONNECT; rsv; atyp] !!! 3) with atyp.
      rewrite !bool_decide_eq_true_2 by done.
      rewrite !bool_decide_eq_false_2 by done. cbn [negb].
      unfold bind. by rewrite snd_ignore_Write. }
    split; [done |].
    unfold sendRemoteRequest. unfold bind at 1. unfold wrapErr, catch, on_client.
    cbn [client remote]. by rewrite Hrun.
Qed.

Lemma readSocks5Request_rejects_witness :
  readSocks5Request (mkConn (x05 :: x02 :: x00 :: x01 :: [x7f; x00; x00; x01; x00; x50]) [] [])
    = (Err (Errorf "unsupported command: %d" [ArgInt 2]),
       mkConn [x7f; x00; x00; x01; x00; x50] [x05; x07] []) /\
  readSocks5Request (mkConn (x05 :: x01 :: x00 :: x09 :: [x7f; x00; x00; x01; x00; x50]) [] [])
    = (Err (Errorf "unknown address type: %d" [ArgInt 9]),
       mkConn [x7f; x00; x00; x01; x00; x50] [x05; x08] []).
Proof.
  split.
  - apply (proj1 (readSocks5Request_rejects x02 x00 x01 [x7f; x00; x00; x01; x00; x50]
                    [] [] (mkConn [] [] []))).
    discriminate.
  - apply (proj2 (readSocks5Request_rejects x01 x00 x09 [x7f; x00; x00; x01; x00; x50]
                    [] [] (mkConn [] [] []))); discriminate.
Defined.

(** C6, counterexample.  A command other than CONNECT is not answered when
    the version byte is not 5: the version check comes first, writes
    nothing and fails with the unsupported-version error.  An address type
    that is not supported is not answered as such when the command is not
    CONNECT: the command check comes first. *)
Lemma readSocks5Request_checks_in_order :
  readSocks5Request (mkConn [x04; x02; x00; x01; x7f; x00; x00; x01; x00; x50] [] [])
    = (Err (Errorf "unsupported SOCKS version: %d" [ArgInt 4]),
       mkConn [x7f; x00; x00; x01; x00; x50] [] []) /\
  readSocks5Request (mkConn [x05; x02; x00; x09; x7f; x00; x00; x01; x00; x50] [] [])
    = (Err (Errorf "unsupported command: %d" [ArgInt 2]),
       mkConn [x7f; x00; x00; x01; x00; x50] [x05; x07] []).
Proof. split; reflexivity. Qed.

(** ** Upstream authentication *)

Lemma length_list_byte_of_string (s : string) :
  length (list_byte_of_string s) = String.length s.
Proof.
  unfold list_byte_of_string. rewrite length_map.
  induction s as [| a s IH]; simpl; [done | by rewrite IH].
Qed.

Lemma byte_of_int_small (n : nat) : n <= 255 -> int_of_byte (byte_of_int n) = n.
Proof.
  intros Hn. unfold byte_of_int, int_of_byte.
  rewrite Nat.mod_small by lia.
  destruct (Byte.of_nat n) as [b |] eqn:E.
  - simpl. by apply Byte.to_of_nat.
  - apply Byte.of_nat_None_iff in E. lia.
Qed.

Lemma insert_cons_0 {A} (x y : A) (l : list A) : <[0 := x]> (y :: l) = x :: l.
Proof. reflexivity. Qed.

Lemma insert_cons_S {A} (i : nat) (x y : A) (l : list A) :
  <[S i := x]> (y :: l) = y :: <[i := x]> l.
Proof. reflexivity. Qed.

(** The buffer built by index assignments and [copy] is the concatenation
    the wire format asks for. *)
Lemma authRequest_layout (username password : string) :
  authRequest username password =
    [x01; byte_of_int (String.length username)] ++ list_byte_of_string username ++
    [byte_of_int (String.length password)] ++ list_byte_of_string password.
Proof.
  unfold authRequest, make, copy_at.
  pose proof (length_list_byte_of_string username) as Hu.
  pose proof (length_list_byte_of_string password) as Hp.
  set (U := list_byte_of_string username) in *.
  set (P := list_byte_of_string password) in *.
  rewrite <- Hu, <- Hp.
  replace (3 + length U + length P) with (S (S (length U + S (length P)))) by lia.
  cbn [replicate]. rewrite insert_cons_0, insert_cons_S, insert_cons_0.
  rewrite !list_inserts_cons.
  rewrite replicate_add.
  rewrite list_inserts_0_r by (by rewrite length_replicate).
  change (2 + length U) with (S (S (length U))). rewrite !insert_cons_S.
  rewrite insert_app_r_alt by lia. rewrite Nat.sub_diag.
  cbn [replicate]. rewrite insert_cons_0.
  change (3 + length U) with (S (S (S (length U)))).
  rewrite !list_inserts_cons.
  replace (U ++ byte_of_int (length P) :: replicate (length P) x00)
    with ((U ++ [byte_of_int (length P)]) ++ replicate (length P) x00 ++ [])
    by (by rewrite <- app_assoc, app_nil_r).
  replace (S (length U)) with (length (U ++ [byte_of_int (length P)]) + 0)
    by (rewrite length_app; simpl; lia).
  rewrite list_inserts_app_r.
  rewrite list_inserts_0_r by (by rewrite length_replicate).
  rewrite app_nil_r, <- app_assoc. done.
Qed.

(** C7.  For a username and a password of at most 255 bytes each, the
    subnegotiation message is the byte [01], a byte holding the length of
    the username, the username, a byte holding the length of the password,
    and the password; the two length bytes are the true lengths of the
    credentials that follow them; and this message is what
    [authenticateRemoteSocks] sends after the upstream has selected
    username/password authentication. *)
Theorem authRequest_wire_format (username password : string) :
  String.length username <= 255 -> String.length password <= 255 ->
  authRequest username password =
    [x01; byte_of_int (String.length username)] ++ list_byte_of_string username ++
    [byte_of_int (String.length password)] ++ list_byte_of_string password /\
  int_of_byte (byte_of_int (String.length username)) = length (list_byte_of_string username) /\
  int_of_byte (byte_of_int (String.length password)) = length (list_byte_of_string password) /\
  forall (ver : byte) (tl w : list byte) (ws : list (option error)),
    next_writes_succeed 2 (mkConn (ver :: _USERNAME_PASSWORD_AUTH :: tl) w ws) ->
    wr (snd (authenticateRemoteSocks username password
               (mkConn (ver :: _USERNAME_PASSWORD_AUTH :: tl) w ws)))
    = w ++ authMethods ++ authRequest username password.
Proof.
  intros Hu Hp. split; [apply authRequest_layout |].
  rewrite !length_list_byte_of_string.
  split; [by apply byte_of_int_small |]. split; [by apply byte_of_int_small |].
  intros ver tl w ws Hw.
  unfold authenticateRemoteSocks. unfold bind at 1. unfold wrapErr at 1. unfold catch.
  destruct (Write_ok authMethods _ 1 Hw) as [-> Hw1]. cbn [rd wr wres] in *.
  unfold bind at 1. unfold wrapErr at 1. unfold catch.
  rewrite (ReadFull_app [ver; _USERNAME_PASSWORD_AUTH] tl).
  change ([ver; _USERNAME_PASSWORD_AUTH] !!! 1) with _USERNAME_PASSWORD_AUTH.
  rewrite bool_decide_eq_true_2 by done. cbn [negb].
  unfold bind at 1. unfold wrapErr at 1. unfold catch.
  destruct (Write_ok (authRequest username password)
              (mkConn tl (w ++ authMethods) (tail ws)) 0 Hw1) as [-> _]. cbn [rd wr wres].
  unfold bind, wrapErr, catch, throw, ret.
  rewrite <- app_assoc.
  destruct (decide (2 <= length tl)) as [Hl | Hl].
  - rewrite ReadFull_ok by done. cbn [rd wr wres].
    by destruct (negb _).
  - rewrite ReadFull_short by (simpl; lia). done.
Qed.

Lemma authRequest_wire_format_witness :
  authRequest "user" "secret" =
    [x01; byte_of_int 4] ++ list_byte_of_string "user" ++
    [byte_of_int 6] ++ list_byte_of_string "secret" /\
  int_of_byte (byte_of_int (String.length "user")) = length (list_byte_of_string "user") /\
  int_of_byte (byte_of_int (String.length "secret")) = length (list_byte_of_string "secret").
Proof.
  assert (String.length "user" <= 255) as Hu by (simpl; lia).
  assert (String.length "secret" <= 255) as Hp by (simpl; lia).
  pose proof (authRequest_wire_format "user" "secret" Hu Hp) as (H1 & H2 & H3 & _).
  split; [exact H1 | split; [exact H2 | exact H3]].
Defined.

Lemma authenticateRemoteSocks_run (username password : string)
    (ver1 ver2 status : byte) (tl w : list byte) (ws : list (option error)) :
  next_writes_succeed 2
    (mkConn (ver1 :: _USERNAME_PASSWORD_AUTH :: ver2 :: status :: tl) w ws) ->
  authenticateRemoteSocks username password
    (mkConn (ver1 :: _USERNAME_PASSWORD_AUTH :: ver2 :: status :: tl) w ws)
  = (if bool_decide (status = _STATUS_OK) then Ok tt
     else Err (Errorf "authentication failed" []),
     mkConn tl (w ++ authMethods ++ authRequest username password) (tail (tail ws))).
Proof.
  intros Hw.
  unfold authenticateRemoteSocks. unfold bind at 1. unfold wrapErr at 1. unfold catch.
  destruct (Write_ok authMethods _ 1 Hw) as [-> Hw1]. cbn [rd wr wres] in *.
  unfold bind at 1. unfold wrapErr at 1. unfold catch.
  rewrite (ReadFull_app [ver1; _USERNAME_PASSWORD_AUTH] (ver2 :: status :: tl)).
  change ([ver1; _USERNAME_PASSWORD_AUTH] !!! 1) with _USERNAME_PASSWORD_AUTH.
  rewrite bool_decide_eq_true_2 by done. cbn [negb].
  unfold bind at 1. unfold wrapErr at 1. unfold catch.
  destruct (Write_ok (authRequest username password)
              (mkConn (ver2 :: status :: tl) (w ++ authMethods) (tail ws)) 0 Hw1) as [-> _].
  cbn [rd wr wres].
  unfold bind, wrapErr, catch, throw, ret.
  rewrite (ReadFull_app [ver2; status] tl).
  change ([ver2; status] !!! 1) with status.
  rewrite <- app_assoc. by destruct (bool_decide (status = _STATUS_OK)).
Qed.

(** C5.  After a greeting that succeeded and an upstream that was dialled,
    selected username/password and accepted the two writes: when the
    status byte of the upstream's reply is [00], authentication succeeds
    and the handler goes on to forward the CONNECT request; once that
    exchange has succeeded it runs the relay on the two connections as the
    exchange left them, and what it reports is the relay's error, wrapped,
    or nothing when the relay returns none; when the exchange fails it
    reports that failure and runs no relay.  When the status byte is
    anything else, authentication fails with the authentication-failed
    error, the handler returns after the authentication stage, nothing but
    the two authentication messages was written to the upstream, the
    client's request was not read, and no relay was started: the outcome
    of the handler is the same whatever the relay would do. *)
Theorem authenticateRemoteSocks_status (s : Server) (clientConn c1 : Conn)
    (ver1 ver2 status : byte) (tl w : list byte) (ws : list (option error))
    (finder : result string) (dial : string -> result Conn)
    (remoteHost remoteAddr : string) (relay : Conns -> option error) :
  greetClient clientConn = (Ok tt, c1) ->
  let remoteConn := mkConn (ver1 :: _USERNAME_PASSWORD_AUTH :: ver2 :: status :: tl) w ws in
  getTcpConn s finder dial = Ok (remoteConn, remoteHost) ->
  next_writes_succeed 2 remoteConn ->
  let r1 := mkConn tl (w ++ authMethods ++ authRequest (RemoteUser s) (RemotePass s))
                   (tail (tail ws)) in
  let h := handleConnection s finder dial remoteAddr relay clientConn in
  (status = _STATUS_OK ->
     authenticateRemoteSocks (RemoteUser s) (RemotePass s) remoteConn = (Ok tt, r1) /\
     stages h = [StGreet; StDial; StAuth; StForward] ++
                (if is_Ok (fst (sendRemoteRequest (mkConns c1 r1))) then [StRelay] else []) /\
     client_after h = client (snd (sendRemoteRequest (mkConns c1 r1))) /\
     remote_after h = Some (remote (snd (sendRemoteRequest (mkConns c1 r1)))) /\
     (forall p, sendRemoteRequest (mkConns c1 r1) = (Ok tt, p) ->
        stages h = [StGreet; StDial; StAuth; StForward; StRelay] /\
        reported h =
          match relay p with
          | Some err => report s (ErrorfW "error syncing connections: %w" [] err)
          | None => None
          end) /\
     (forall err p, sendRemoteRequest (mkConns c1 r1) = (Err err, p) ->
        stages h = [StGreet; StDial; StAuth; StForward] /\
        reported h =
          report s (ErrorfW "error sending request to remote server: %w" [] err) /\
        forall relay',
          handleConnection s finder dial remoteAddr relay' clientConn = h)) /\
  (status <> _STATUS_OK ->
     authenticateRemoteSocks (RemoteUser s) (RemotePass s) remoteConn
       = (Err (Errorf "authentication failed" []), r1) /\
     stages h = [StGreet; StDial; StAuth] /\
     (StForward ∉ stages h) /\ (StRelay ∉ stages h) /\
     client_after h = c1 /\
     remote_after h = Some r1 /\
     reported h =
       report s (ErrorfW "error authenticating with remote server (%s | %s): %w"
                         [ArgStr remoteHost; ArgStr remoteAddr]
                         (Errorf "authentication failed" [])) /\
     forall relay',
       handleConnection s finder dial remoteAddr relay' clientConn = h).
Proof.
  intros Hgreet remoteConn Hdial Hw r1 h.
  pose proof (authenticateRemoteSocks_run (RemoteUser s) (RemotePass s)
                ver1 ver2 status tl w ws Hw) as Hauth.
  fold remoteConn r1 in Hauth.
  split.
  - intros Hst. rewrite bool_decide_eq_true_2 in Hauth by done.
    split; [done |].
    unfold h, handleConnection. rewrite Hgreet, Hdial, Hauth.
    destruct (sendRemoteRequest (mkConns c1 r1)) as [[[] | e] p].
    + split; [done |]. split; [done |]. split; [done |]. split.
      * intros p' [= <-]. done.
      * intros err p' [=].
    + split; [done |]. split; [done |]. split; [done |]. split.
      * intros p' [=].
      * intros err p' [= <- <-]. split; [done |]. split; [done |].
        done.
  - intros Hst. rewrite bool_decide_eq_false_2 in Hauth by done.
    split; [done |].
    assert (stages h = [StGreet; StDial; StAuth]) as Hstages.
    { unfold h, handleConnection. by rewrite Hgreet, Hdial, Hauth. }
    split; [done |]. rewrite Hstages.
    split; [by rewrite !elem_of_cons, elem_of_nil; intros [|[|[|]]] |].
    split; [by rewrite !elem_of_cons, elem_of_nil; intros [|[|[|]]] |].
    unfold h, handleConnection. rewrite Hgreet, Hdial, Hauth.
    done.
Qed.

Lemma authenticateRemoteSocks_status_witness :
  let relay := fun _ : Conns =>
    match syncConns (Some (OpError "write" EPIPE)) None
            [T_client_to_remote; T_client_to_remote; T_main; T_main; T_main] with
    | Some r => r
    | None => None
    end in
  let h0 := handleConnection e2e_server (Err io_EOF) (fun _ => Ok (e2e_remote x00))
              "203.0.113.7:1080" relay e2e_client in
  let h1 := handleConnection e2e_server (Err io_EOF) (fun _ => Ok (e2e_remote x01))
              "203.0.113.7:1080" relay e2e_client in
  (stages h0 = [StGreet; StDial; StAuth; StForward; StRelay] /\
   reported h0 =
     Some (ErrorfW "error syncing connections: %w" []
             (ErrorfW "error copying data from client to remote: %w" []
                (OpError "write" EPIPE)))) /\
  (stages h1 = [StGreet; StDial; StAuth] /\
   forall relay',
     handleConnection e2e_server (Err io_EOF) (fun _ => Ok (e2e_remote x01))
       "203.0.113.7:1080" relay' e2e_client = h1).
Proof.
  cbn zeta.
  assert (forall st, next_writes_succeed 2 (e2e_remote st)) as Hw.
  { intros st i e _. simpl. by rewrite lookup_nil. }
  split.
  - pose proof (authenticateRemoteSocks_status e2e_server e2e_client
                  (mkConn [x05; x01; x00; x01; x5d; xb8; xd8; x22; x00; x50] [x05; x00] [])
                  x05 x01 x00 [x05; x00; x00; x01; x5d; xb8; xd8; x22; x00; x50] [] []
                  (Err io_EOF) (fun _ => Ok (e2e_remote x00))
                  "proxy.example:1080" "203.0.113.7:1080"
                  (fun _ : Conns =>
                     match syncConns (Some (OpError "write" EPIPE)) None
                             [T_client_to_remote; T_client_to_remote;
                              T_main; T_main; T_main] with
                     | Some r => r
                     | None => None
                     end)
                  eq_refl eq_refl (Hw x00)) as [H _].
    destruct (H eq_refl) as (_ & _ & _ & _ & Hrelay & _).
    destruct (Hrelay _ eq_refl) as [Hs Hr].
    split; [exact Hs | exact Hr].
  - pose proof (authenticateRemoteSocks_status e2e_server e2e_client
                  (mkConn [x05; x01; x00; x01; x5d; xb8; xd8; x22; x00; x50] [x05; x00] [])
                  x05 x01 x01 [x05; x00; x00; x01; x5d; xb8; xd8; x22; x00; x50] [] []
                  (Err io_EOF) (fun _ => Ok (e2e_remote x01))
                  "proxy.example:1080" "203.0.113.7:1080"
                  (fun _ : Conns =>
                     match syncConns (Some (OpError "write" EPIPE)) None
                             [T_client_to_remote; T_client_to_remote;
                              T_main; T_main; T_main] with
                     | Some r => r
                     | None => None
                     end)
                  eq_refl eq_refl (Hw x01)) as [_ H].
    assert (x01 <> _STATUS_OK) as Hne by discriminate.
    destruct (H Hne) as (_ & Hs & _ & _ & _ & _ & _ & Hind).
    split; [exact Hs | exact Hind].
Defined.

(** ** Forwarding the CONNECT exchange *)

Lemma readSocks5Response_wf (rsv atyp : byte) (field port tl w : list byte) ws :
  wf_addr atyp field -> length port = 2 ->
  readSocks5Response (mkConn ([_SOCKS_VERSION; _STATUS_OK; rsv; atyp] ++ field ++ port ++ tl) w ws)
    = (Ok ([_SOCKS_VERSION; _STATUS_OK; rsv; atyp] ++ returned_field atyp field ++ port),
       mkConn tl w ws).
Proof.
  intros Hwf Hport.
  unfold readSocks5Response, returned_field, IPv4len, IPv6len. io_unfold.
  rewrite (ReadFull_app [_SOCKS_VERSION; _STATUS_OK; rsv; atyp]).
  change ([_SOCKS_VERSION; _STATUS_OK; rsv; atyp] !!! 0) with _SOCKS_VERSION.
  change ([_SOCKS_VERSION; _STATUS_OK; rsv; atyp] !!! 1) with _STATUS_OK.
  change ([_SOCKS_VERSION; _STATUS_OK; rsv; atyp] !!! 3) with atyp.
  rewrite !bool_decide_eq_true_2 by done. cbn [negb].
  destruct Hwf as [[-> Hl] | [[-> Hl] | (-> & l & name & -> & Hl)]].
  - rewrite bool_decide_eq_true_2 by done.
    rewrite bool_decide_eq_false_2 by done.
    rewrite (app_assoc field port tl).
    replace (4 + 2) with (length (field ++ port)) by (rewrite length_app; lia).
    by rewrite ReadFull_app.
  - rewrite !bool_decide_eq_false_2 by done.
    rewrite bool_decide_eq_true_2 by done.
    rewrite (app_assoc field port tl).
    replace (16 + 2) with (length (field ++ port)) by (rewrite length_app; lia).
    by rewrite ReadFull_app.
  - rewrite bool_decide_eq_false_2 by done.
    rewrite !bool_decide_eq_true_2 by done.
    rewrite (ReadFull_app [l] (name ++ port ++ tl)).
    change ([l] !!! 0) with l.
    rewrite (app_assoc name port tl).
    replace (int_of_byte l + 2) with (length (name ++ port)) by (rewrite length_app; lia).
    by rewrite ReadFull_app.
Qed.

(** A well-formed request answered by a well-formed success reply: the
    request goes to the upstream as read; the reply goes to the client as
    [readSocks5Response] returned it. *)
Lemma sendRemoteRequest_run (rsv atyp rsv' atyp' : byte)
    (field port field' port' ctl rtl cw rw : list byte) cws rws :
  wf_addr atyp field -> length port = 2 ->
  wf_addr atyp' field' -> length port' = 2 ->
  let request := [_SOCKS_VERSION; _CONNECT; rsv; atyp] ++ field ++ port in
  let reply := [_SOCKS_VERSION; _STATUS_OK; rsv'; atyp'] ++ field' ++ port' in
  let c := mkConn (request ++ ctl) cw cws in
  let r := mkConn (reply ++ rtl) rw rws in
  next_writes_succeed 1 c -> next_writes_succeed 1 r ->
  sendRemoteRequest (mkConns c r)
  = (Ok tt,
     mkConns
       (mkConn ctl (cw ++ [_SOCKS_VERSION; _STATUS_OK; rsv'; atyp']
                       ++ returned_field atyp' field' ++ port') (tail cws))
       (mkConn rtl (rw ++ request) (tail rws))).
Proof.
  intros Hwf Hport Hwf' Hport' request reply c r Hcw Hrw.
  unfold sendRemoteRequest. unfold bind at 1. unfold wrapErr at 1. unfold catch, on_client.
  cbn [client remote]. unfold c, request. rewrite <- !app_assoc.
  rewrite readSocks5Request_wf by done.
  unfold bind at 1. unfold wrapErr at 1. unfold catch, on_remote. cbn [client remote].
  destruct (Write_ok ([_SOCKS_VERSION; _CONNECT; rsv; atyp] ++ field ++ port) r 0 Hrw)
    as [-> _].
  unfold bind at 1. unfold wrapErr at 1. unfold catch. cbn [client remote].
  unfold r, reply. cbn [rd wr wres]. rewrite <- !app_assoc.
  rewrite readSocks5Response_wf by done.
  unfold bind, wrapErr, catch, ret. cbn [client remote].
  assert (next_writes_succeed 1 (mkConn ctl cw cws)) as Hcw' by exact Hcw.
  destruct (Write_ok ([_SOCKS_VERSION; _STATUS_OK; rsv'; atyp']
                        ++ returned_field atyp' field' ++ port')
              (mkConn ctl cw cws) 0 Hcw') as [-> _].
  cbn [rd wr wres]. done.
Qed.

(** C1, as the code behaves.  For a well-formed CONNECT request and a
    success reply whose address is a domain name, the request reaches the
    upstream byte for byte, but the reply that reaches the client lacks the
    domain-length byte: it is one byte shorter than the reply read from the
    upstream. *)
Theorem sendRemoteRequest_domain_reply (rsv atyp rsv' l : byte)
    (field port name port' ctl rtl cw rw : list byte)
    (cws rws : list (option error)) :
  wf_addr atyp field -> length port = 2 ->
  length name = int_of_byte l -> length port' = 2 ->
  let request := [_SOCKS_VERSION; _CONNECT; rsv; atyp] ++ field ++ port in
  let reply := [_SOCKS_VERSION; _STATUS_OK; rsv'; _DOMAIN_NAME] ++ (l :: name) ++ port' in
  let forwarded := [_SOCKS_VERSION; _STATUS_OK; rsv'; _DOMAIN_NAME] ++ name ++ port' in
  let c := mkConn (request ++ ctl) cw cws in
  let r := mkConn (reply ++ rtl) rw rws in
  next_writes_succeed 1 c -> next_writes_succeed 1 r ->
  sendRemoteRequest (mkConns c r)
    = (Ok tt, mkConns (mkConn ctl (cw ++ forwarded) (tail cws))
                      (mkConn rtl (rw ++ request) (tail rws))) /\
  S (length forwarded) = length reply /\
  forwarded <> reply.
Proof.
  intros Hwf Hport Hname Hport' request reply forwarded c r Hcw Hrw.
  assert (S (length forwarded) = length reply) as Hlen.
  { unfold forwarded, reply. rewrite !length_app. simpl. lia. }
  split; [| split; [done | intros Heq; rewrite Heq in Hlen; lia]].
  assert (wf_addr _DOMAIN_NAME (l :: name)) as Hwf'.
  { right; right. split; [done |]. by exists l, name. }
  apply (sendRemoteRequest_run rsv atyp rsv' _DOMAIN_NAME field port (l :: name) port'
           ctl rtl cw rw cws rws Hwf Hport Hwf' Hport' Hcw Hrw).
Qed.

(** A CONNECT to [a:80] answered with success and the bound address
    [a:80]: the client receives seven bytes of the eight the upstream
    sent. *)
Lemma sendRemoteRequest_domain_reply_witness :
  sendRemoteRequest
    (mkConns (mkConn [x05; x01; x00; x03; x01; x61; x00; x50] [] [])
             (mkConn [x05; x00; x00; x03; x01; x61; x00; x50] [] []))
  = (Ok tt,
     mkConns (mkConn [] [x05; x00; x00; x03; x61; x00; x50] [])
             (mkConn [] [x05; x01; x00; x03; x01; x61; x00; x50] [])) /\
  [x05; x00; x00; x03; x61; x00; x50] <> [x05; x00; x00; x03; x01; x61; x00; x50].
Proof.
  assert (wf_addr x03 [x01; x61]) as Hwf.
  { right; right. split; [done |]. by exists x01, [x61]. }
  assert (forall r, next_writes_succeed 1 (mkConn r [] [])) as Hw.
  { intros r i e _. simpl. by rewrite lookup_nil. }
  pose proof (sendRemoteRequest_domain_reply x00 x03 x00 x01 [x01; x61] [x00; x50]
                [x61] [x00; x50] [] [] [] [] [] [] Hwf eq_refl eq_refl eq_refl
                (Hw _) (Hw _)) as (H1 & _ & H3).
  split; [exact H1 | exact H3].
Defined.

(** The exchange is forwarded byte for byte in both directions when the
    reply carries an IPv4 or an IPv6 address. *)
Theorem sendRemoteRequest_verbatim_ip_reply (rsv atyp rsv' atyp' : byte)
    (field port field' port' ctl rtl cw rw : list byte)
    (cws rws : list (option error)) :
  wf_addr atyp field -> length port = 2 ->
  wf_addr atyp' field' -> length port' = 2 -> atyp' <> _DOMAIN_NAME ->
  let request := [_SOCKS_VERSION; _CONNECT; rsv; atyp] ++ field ++ port in
  let reply := [_SOCKS_VERSION; _STATUS_OK; rsv'; atyp'] ++ field' ++ port' in
  let c := mkConn (request ++ ctl) cw cws in
  let r := mkConn (reply ++ rtl) rw rws in
  next_writes_succeed 1 c -> next_writes_succeed 1 r ->
  sendRemoteRequest (mkConns c r)
    = (Ok tt, mkConns (mkConn ctl (cw ++ reply) (tail cws))
                      (mkConn rtl (rw ++ request) (tail rws))).
Proof.
  intros Hwf Hport Hwf' Hport' Hnd request reply c r Hcw Hrw.
  unfold c, r, request, reply.
  rewrite (sendRemoteRequest_run rsv atyp rsv' atyp' field port field' port'
             ctl rtl cw rw cws rws Hwf Hport Hwf' Hport' Hcw Hrw).
  unfold returned_field. by rewrite bool_decide_eq_false_2.
Qed.

Lemma sendRemoteRequest_verbatim_ip_reply_witness :
  sendRemoteRequest
    (mkConns (mkConn ([x05; x01; x00; x01; x5d; xb8; xd8; x22; x00; x50] ++ []) [] [])
             (mkConn ([x05; x00; x00; x01; x5d; xb8; xd8; x22; x00; x50] ++ []) [] []))
  = (Ok tt,
     mkConns (mkConn [] [x05; x00; x00; x01; x5d; xb8; xd8; x22; x00; x50] [])
             (mkConn [] [x05; x01; x00; x01; x5d; xb8; xd8; x22; x00; x50] [])).
Proof.
  assert (wf_addr x01 [x5d; xb8; xd8; x22]) as Hwf by (by left).
  assert (forall r, next_writes_succeed 1 (mkConn r [] [])) as Hw.
  { intros r i e _. simpl. by rewrite lookup_nil. }
  assert (x01 <> _DOMAIN_NAME) as Hnd by discriminate.
  exact (sendRemoteRequest_verbatim_ip_reply x00 x01 x00 x01
           [x5d; xb8; xd8; x22] [x00; x50] [x5d; xb8; xd8; x22] [x00; x50]
           [] [] [] [] [] [] Hwf eq_refl Hwf eq_refl Hnd (Hw _) (Hw _)).
Defined.

Lemma readSocks5Response_failure (rep rsv atyp : byte) (tl w : list byte) ws :
  rep <> _STATUS_OK ->
  readSocks5Response (mkConn ([_SOCKS_VERSION; rep; rsv; atyp] ++ tl) w ws)
  = (Err (fst (reply_failure rep)),
     mkConn tl (w ++ [_SOCKS_VERSION; snd (reply_failure rep)]) (tail ws)).
Proof.
  intros Hrep. unfold readSocks5Response, reply_failure. io_unfold.
  rewrite (ReadFull_app [_SOCKS_VERSION; rep; rsv; atyp]).
  change ([_SOCKS_VERSION; rep; rsv; atyp] !!! 0) with _SOCKS_VERSION.
  change ([_SOCKS_VERSION; rep; rsv; atyp] !!! 1) with rep.
  rewrite bool_decide_eq_true_2 by done. cbn [negb].
  rewrite (bool_decide_eq_false_2 (rep = _STATUS_OK)) by done.
  destruct (reply_message rep) as [msg |]; by rewrite snd_Write.
Qed.

(** When the upstream answers a well-formed request with a reply code other
    than success, [sendRemoteRequest] fails with the error of that code; the
    two-byte failure reply is written to the upstream connection, after the
    forwarded request, and nothing is written to the client. *)
Theorem sendRemoteRequest_upstream_failure (rsv atyp rep rsv' atyp' : byte)
    (field port ctl rtl cw rw : list byte) (cws rws : list (option error)) :
  wf_addr atyp field -> length port = 2 -> rep <> _STATUS_OK ->
  let request := [_SOCKS_VERSION; _CONNECT; rsv; atyp] ++ field ++ port in
  let c := mkConn (request ++ ctl) cw cws in
  let r := mkConn ([_SOCKS_VERSION; rep; rsv'; atyp'] ++ rtl) rw rws in
  next_writes_succeed 1 r ->
  sendRemoteRequest (mkConns c r)
  = (Err (ErrorfW "error reading response from remote server: %w" []
                  (fst (reply_failure rep))),
     mkConns (mkConn ctl cw cws)
             (mkConn rtl (rw ++ request ++ [_SOCKS_VERSION; snd (reply_failure rep)])
                     (tail (tail rws)))).
Proof.
  intros Hwf Hport Hrep request c r Hrw.
  unfold sendRemoteRequest. unfold bind at 1. unfold wrapErr at 1. unfold catch, on_client.
  cbn [client remote]. unfold c, request. rewrite <- !app_assoc.
  rewrite readSocks5Request_wf by done.
  unfold bind at 1. unfold wrapErr at 1. unfold catch, on_remote. cbn [client remote].
  destruct (Write_ok ([_SOCKS_VERSION; _CONNECT; rsv; atyp] ++ field ++ port) r 0 Hrw)
    as [-> _].
  unfold bind at 1. unfold wrapErr at 1. unfold catch. cbn [client remote].
  unfold r. cbn [rd wr wres].
  rewrite readSocks5Response_failure by done.
  by rewrite <- !app_assoc.
Qed.

Lemma sendRemoteRequest_upstream_failure_witness :
  sendRemoteRequest
    (mkConns (mkConn ([x05; x01; x00; x01; x5d; xb8; xd8; x22; x00; x50] ++ []) [] [])
             (mkConn ([x05; x05; x00; x01] ++ [x00; x00; x00; x00; x00; x00]) [] []))
  = (Err (ErrorfW "error reading response from remote server: %w" []
                  (Errorf "connection refused" [])),
     mkConns (mkConn [] [] [])
             (mkConn [x00; x00; x00; x00; x00; x00]
                     [x05; x01; x00; x01; x5d; xb8; xd8; x22; x00; x50; x05; x05] [])).
Proof.
  assert (wf_addr x01 [x5d; xb8; xd8; x22]) as Hwf by (by left).
  assert (forall r, next_writes_succeed 1 (mkConn r [] [])) as Hw.
  { intros r i e _. simpl. by rewrite lookup_nil. }
  assert (x05 <> _STATUS_OK) as Hne by discriminate.
  exact (sendRemoteRequest_upstream_failure x00 x01 x05 x00 x01
           [x5d; xb8; xd8; x22] [x00; x50] [] [x00; x00; x00; x00; x00; x00]
           [] [] [] [] Hwf eq_refl Hne (Hw _)).
Defined.

(** ** Relay *)

Lemma sends_of_snoc_same (t : tid) (v : option error) log :
  sends_of t (log ++ [(t, v)]) = sends_of t log ++ [v].
Proof.
  unfold sends_of. rewrite filter_app, map_app. f_equal.
  rewrite filter_cons_True by done. done.
Qed.

Lemma sends_of_snoc_other (t t' : tid) (v : option error) log :
  t' <> t -> sends_of t (log ++ [(t', v)]) = sends_of t log.
Proof.
  intros Hne. unfold sends_of. rewrite filter_app, map_app.
  rewrite filter_cons_False by done. simpl. by rewrite app_nil_r.
Qed.

Lemma copier_head (t : tid) (err : option error) :
  exists rest, copier (format_of t) err = first_report t err :: rest.
Proof.
  unfold copier, first_report. destruct err as [e |]; simpl.
  - destruct (errors_Is_chain e ECONNRESET); simpl; eauto.
  - eauto.
Qed.

Lemma gstep_inv (t t' : tid) (err err' : option error) (g g' : gstate)
    (ch : chan (option error)) (log : list (tid * option error)) (m : mstate) :
  t <> T_main -> t' <> t ->
  cap ch = 1 ->
  map snd log = received m ++ buf ch ->
  g_ok t err g log -> g_ok t' err' g' log ->
  Forall (fun p => fst p = T_client_to_remote \/ fst p = T_remote_to_client) log ->
  let '(g1, ch1, s) := gstep t err g ch in
  cap ch1 = 1 /\
  map snd (log ++ s) = received m ++ buf ch1 /\
  g_ok t err g1 (log ++ s) /\ g_ok t' err' g' (log ++ s) /\
  Forall (fun p => fst p = T_client_to_remote \/ fst p = T_remote_to_client) (log ++ s).
Proof.
  intros Ht Hne Hcap Hlog Hg Hg' Hall.
  destruct g as [| [| v rest]]; simpl.
  - rewrite app_nil_r. repeat split; try done.
    unfold g_ok in *. by rewrite Hg.
  - rewrite app_nil_r. by repeat split.
  - unfold chan_send. destruct (decide (length (buf ch) < cap ch)) as [Hroom | Hfull].
    + simpl. split; [done |]. split.
      { rewrite map_app, Hlog. simpl. by rewrite app_assoc. }
      split.
      { unfold g_ok in *. rewrite sends_of_snoc_same, <- app_assoc. done. }
      split.
      { unfold g_ok in *. destruct g'; by rewrite sends_of_snoc_other. }
      apply Forall_app. split; [done |]. constructor; [| constructor].
      simpl. destruct t; [by left | by right | done].
    + rewrite app_nil_r. by repeat split.
Qed.

Lemma relay_step_inv (errC2R errR2C : option error) (st : RelayState) (t : tid) :
  relay_inv errC2R errR2C st -> relay_inv errC2R errR2C (relay_step errC2R errR2C st t).
Proof.
  intros Hinv. pose proof Hinv as (Hcap & Hlog & Hg1 & Hg2 & Hall & Hcl).
  destruct t; unfold relay_step.
  - pose proof (gstep_inv T_client_to_remote T_remote_to_client errC2R errR2C
                  (g_c2r st) (g_r2c st) (done st) (sent st) (main st)) as H.
    destruct (gstep T_client_to_remote errC2R (g_c2r st) (done st)) as [[g ch] s].
    destruct H as (? & ? & ? & ? & ?); try done.
    all: by repeat split.
  - pose proof (gstep_inv T_remote_to_client T_client_to_remote errR2C errC2R
                  (g_r2c st) (g_c2r st) (done st) (sent st) (main st)) as H.
    destruct (gstep T_remote_to_client errR2C (g_r2c st) (done st)) as [[g ch] s].
    destruct H as (? & ? & ? & ? & ?); try done.
    all: by repeat split.
  - unfold closes_ok in Hcl.
    destruct (main st) as [| e | e | e] eqn:Hm.
    + unfold chan_recv. destruct (buf (done st)) as [| v rest] eqn:Hb.
      * exact Hinv.
      * simpl in Hlog. by repeat split.
    + by repeat split.
    + by repeat split.
    + exact Hinv.
Qed.

Lemma relay_run_inv (errC2R errR2C : option error) (sched : list tid) :
  relay_inv errC2R errR2C (relay_run errC2R errR2C sched).
Proof.
  unfold relay_run.
  assert (relay_inv errC2R errR2C relay_init) as H0.
  { by repeat split. }
  revert H0. generalize relay_init.
  induction sched as [| t sched IH]; intros st Hst; [done |].
  simpl. apply IH. by apply relay_step_inv.
Qed.

Lemma copier_not_nil (format : string) (err : option error) : copier format err <> [].
Proof.
  unfold copier. destruct err as [e |]; simpl.
  - destruct (errors_Is_chain e ECONNRESET); done.
  - done.
Qed.

(** Two moves of a copy goroutine leave a value received or buffered. *)
Lemma relay_two_moves_report (errC2R errR2C : option error) (st : RelayState) (t : tid) :
  t <> T_main ->
  relay_inv errC2R errR2C st ->
  sent (relay_step errC2R errR2C (relay_step errC2R errR2C st t) t) <> [].
Proof.
  intros Ht Hinv.
  assert (forall st', relay_inv errC2R errR2C st' ->
            (match t with
             | T_client_to_remote => exists v p, g_c2r st' = GSend (v :: p)
             | T_remote_to_client => exists v p, g_r2c st' = GSend (v :: p)
             | T_main => False
             end) ->
            sent (relay_step errC2R errR2C st' t) <> []) as Hsend.
  { intros st' (Hcap & Hlog & _) Hg.
    destruct t; [| | done]; destruct Hg as (v & p & Hg); unfold relay_step, gstep;
      rewrite Hg; unfold chan_send;
      (destruct (decide (length (buf (done st')) < cap (done st'))) as [Hroom | Hfull];
       simpl; [by destruct (sent st') |]);
      rewrite app_nil_r; intros Hnil; rewrite Hnil in Hlog; simpl in Hlog;
      symmetry in Hlog; apply app_eq_nil in Hlog as [_ Hb];
      rewrite Hb, Hcap in Hfull; simpl in Hfull; lia. }
  assert (forall st', sent st' <> [] -> sent (relay_step errC2R errR2C st' t) <> []) as Hkeep.
  { intros st' Hne. destruct t; [| | done]; unfold relay_step.
    - destruct (gstep _ _ _ _) as [[g ch] s]. simpl. by destruct (sent st').
    - destruct (gstep _ _ _ _) as [[g ch] s]. simpl. by destruct (sent st'). }
  pose proof Hinv as (Hcap & Hlog & Hg1 & Hg2 & _).
  pose proof (relay_step_inv errC2R errR2C st t Hinv) as Hinv'.
  destruct t; [| | done].
  - destruct (g_c2r st) as [| [| v p]] eqn:Hg.
    + apply Hsend; [done |].
      unfold relay_step, gstep. rewrite Hg. simpl.
      destruct (copier _ errC2R) as [| v p] eqn:Hc; [by apply copier_not_nil in Hc | eauto].
    + apply Hkeep, Hkeep. unfold g_ok in Hg1. rewrite app_nil_r in Hg1.
      intros Hnil. rewrite Hnil in Hg1. symmetry in Hg1. by apply copier_not_nil in Hg1.
    + apply Hkeep, Hsend; [done | eauto].
  - destruct (g_r2c st) as [| [| v p]] eqn:Hg.
    + apply Hsend; [done |].
      unfold relay_step, gstep. rewrite Hg. simpl.
      destruct (copier _ errR2C) as [| v p] eqn:Hc; [by apply copier_not_nil in Hc | eauto].
    + apply Hkeep, Hkeep. unfold g_ok in Hg2. rewrite app_nil_r in Hg2.
      intros Hnil. rewrite Hnil in Hg2. symmetry in Hg2. by apply copier_not_nil in Hg2.
    + apply Hkeep, Hsend; [done | eauto].
Qed.

(** One move of the caller. *)
Lemma relay_main_step (errC2R errR2C : option error) (st : RelayState) :
  main (relay_step errC2R errR2C st T_main) =
    match main st with
    | MRecv => match buf (done st) with [] => MRecv | v :: _ => MCloseClient v end
    | MCloseClient e => MCloseRemote e
    | MCloseRemote e | MReturned e => MReturned e
    end.
Proof.
  unfold relay_step. destruct (main st) as [| e | e | e] eqn:Hm; try done.
  unfold chan_recv. by destruct (buf (done st)).
Qed.

(** Once a value has been sent, three moves of the caller make it return. *)
Lemma relay_main_returns (errC2R errR2C : option error) (st : RelayState) :
  relay_inv errC2R errR2C st -> sent st <> [] ->
  exists r, main (fold_left (relay_step errC2R errR2C) [T_main; T_main; T_main] st)
            = MReturned r.
Proof.
  intros (Hcap & Hlog & _) Hne.
  change (fold_left (relay_step errC2R errR2C) [T_main; T_main; T_main] st)
    with (relay_step errC2R errR2C
            (relay_step errC2R errR2C (relay_step errC2R errR2C st T_main) T_main) T_main).
  rewrite !relay_main_step.
  destruct (main st) as [| e | e | e]; eauto.
  simpl in Hlog. destruct (buf (done st)) as [| v rest]; [| eauto].
  destruct (sent st); [done | by simpl in Hlog].
Qed.

(** Whatever happened before, [syncConns] returns once a copy goroutine has
    moved twice and the caller three times. *)
Lemma syncConns_returns (errC2R errR2C : option error) (sched : list tid) (t : tid) :
  t <> T_main ->
  exists r, syncConns errC2R errR2C (sched ++ [t; t; T_main; T_main; T_main]) = Some r.
Proof.
  intros Ht. unfold syncConns, relay_run.
  replace (sched ++ [t; t; T_main; T_main; T_main])
    with (((sched ++ [t]) ++ [t]) ++ [T_main; T_main; T_main])
    by (by rewrite <- !app_assoc).
  rewrite (fold_left_app _ ((sched ++ [t]) ++ [t])).
  rewrite (fold_left_app _ (sched ++ [t]) [t]).
  rewrite (fold_left_app _ sched [t]).
  generalize (relay_run_inv errC2R errR2C sched). unfold relay_run.
  generalize (fold_left (relay_step errC2R errR2C) sched relay_init).
  intros st Hinv.
  change (fold_left (relay_step errC2R errR2C) [t] st)
    with (relay_step errC2R errR2C st t).
  change (fold_left (relay_step errC2R errR2C) [t] (relay_step errC2R errR2C st t))
    with (relay_step errC2R errR2C (relay_step errC2R errR2C st t) t).
  destruct (relay_main_returns errC2R errR2C
              (relay_step errC2R errR2C (relay_step errC2R errR2C st t) t)) as [r Hr].
  - by do 2 apply relay_step_inv.
  - by apply relay_two_moves_report.
  - exists r. by rewrite Hr.
Qed.

(** A copy goroutine that runs alone up to its first send decides what
    the relay returns. *)
Lemma syncConns_first_alone (errC2R errR2C : option error) :
  syncConns errC2R errR2C
    [T_client_to_remote; T_client_to_remote; T_main; T_main; T_main]
    = Some (first_report T_client_to_remote errC2R) /\
  syncConns errC2R errR2C
    [T_remote_to_client; T_remote_to_client; T_main; T_main; T_main]
    = Some (first_report T_remote_to_client errR2C).
Proof.
  destruct (copier_head T_client_to_remote errC2R) as [rest1 Hc1].
  destruct (copier_head T_remote_to_client errR2C) as [rest2 Hc2].
  split.
  - unfold syncConns, relay_run. cbn [fold_left].
    unfold relay_step at 5.
    cbn [gstep relay_init g_c2r g_r2c done main sent clientClosed remoteClosed].
    rewrite Hc1.
    unfold relay_step at 4.
    cbn [gstep g_c2r g_r2c done main sent clientClosed remoteClosed].
    change (chan_send (first_report T_client_to_remote errC2R) (make_chan 1))
      with (Some (mkChan 1 [first_report T_client_to_remote errC2R])).
    unfold relay_step at 3.
    cbn [g_c2r g_r2c done main sent clientClosed remoteClosed].
    change (chan_recv (mkChan 1 [first_report T_client_to_remote errC2R]))
      with (Some (first_report T_client_to_remote errC2R,
                  mkChan (A := option error) 1 [])).
    cbn [g_c2r g_r2c done main sent clientClosed remoteClosed].
    reflexivity.
  - unfold syncConns, relay_run. cbn [fold_left].
    unfold relay_step at 5.
    cbn [gstep relay_init g_c2r g_r2c done main sent clientClosed remoteClosed].
    rewrite Hc2.
    unfold relay_step at 4.
    cbn [gstep g_c2r g_r2c done main sent clientClosed remoteClosed].
    change (chan_send (first_report T_remote_to_client errR2C) (make_chan 1))
      with (Some (mkChan 1 [first_report T_remote_to_client errR2C])).
    unfold relay_step at 3.
    cbn [g_c2r g_r2c done main sent clientClosed remoteClosed].
    change (chan_recv (mkChan 1 [first_report T_remote_to_client errR2C]))
      with (Some (first_report T_remote_to_client errR2C,
                  mkChan (A := option error) 1 [])).
    cbn [g_c2r g_r2c done main sent clientClosed remoteClosed].
    reflexivity.
Qed.

(** C8, as the code behaves.  Whenever [syncConns] returns, both [Close]
    calls have been made, and the value returned is the first value sent on
    [done]: the report of the copy direction that reported first, which is
    [nil] when that direction ended cleanly or with a connection reset, and
    the wrapped error when it ended with any other failure.  Either
    direction can be the one that reports first, and whatever happened
    before, [syncConns] returns once a copy goroutine has moved twice and
    the caller three times. *)
Theorem syncConns_returns_first_report (errC2R errR2C : option error) :
  (forall (sched : list tid) (r : option error),
     syncConns errC2R errR2C sched = Some r ->
     let st := relay_run errC2R errR2C sched in
     clientClosed st = true /\ remoteClosed st = true /\
     exists t rest,
       sent st = (t, r) :: rest /\
       ((t = T_client_to_remote /\ r = first_report t errC2R) \/
        (t = T_remote_to_client /\ r = first_report t errR2C))) /\
  syncConns errC2R errR2C
    [T_client_to_remote; T_client_to_remote; T_main; T_main; T_main]
    = Some (first_report T_client_to_remote errC2R) /\
  syncConns errC2R errR2C
    [T_remote_to_client; T_remote_to_client; T_main; T_main; T_main]
    = Some (first_report T_remote_to_client errR2C) /\
  (forall t, first_report t None = None) /\
  (forall t e, errors_Is (Some e) ECONNRESET = true -> first_report t (Some e) = None) /\
  (forall t e, errors_Is (Some e) ECONNRESET = false ->
     first_report t (Some e) = Some (ErrorfW (format_of t) [] e)) /\
  (forall (sched : list tid) (t : tid),
     t <> T_main ->
     exists r, syncConns errC2R errR2C (sched ++ [t; t; T_main; T_main; T_main]) = Some r).
Proof.
  split.
  - intros sched r Hret st.
    pose proof (relay_run_inv errC2R errR2C sched) as (Hcap & Hlog & Hg1 & Hg2 & Hall & Hcl).
    fold st in Hcap, Hlog, Hg1, Hg2, Hall, Hcl.
    unfold syncConns in Hret. fold st in Hret. unfold closes_ok in Hcl.
    destruct (main st) as [| e | e | e] eqn:Hm; try done.
    injection Hret as ->. destruct Hcl as [Hc1 Hc2].
    split; [done |]. split; [done |].
    simpl in Hlog.
    destruct (sent st) as [| [t v] rest] eqn:Hs; [done |].
    simpl in Hlog. injection Hlog as -> Hrest.
    exists t, rest. split; [done |].
    apply Forall_cons in Hall as [Ht _]. simpl in Ht.
    destruct Ht as [-> | ->]; [left | right]; (split; [done |]).
    + destruct (copier_head T_client_to_remote errC2R) as [tl Hc].
      unfold g_ok in Hg1. rewrite Hc in Hg1.
      unfold sends_of in Hg1. rewrite filter_cons_True in Hg1 by done.
      destruct (g_c2r st); [done |]. simpl in Hg1. by injection Hg1.
    + destruct (copier_head T_remote_to_client errR2C) as [tl Hc].
      unfold g_ok in Hg2. rewrite Hc in Hg2.
      unfold sends_of in Hg2. rewrite filter_cons_True in Hg2 by done.
      destruct (g_r2c st); [done |]. simpl in Hg2. by injection Hg2.
  - split; [| split; [| split; [done | split; [| split]]]].
    + apply (proj1 (syncConns_first_alone errC2R errR2C)).
    + apply (proj2 (syncConns_first_alone errC2R errR2C)).
    + intros t e He. unfold first_report. by rewrite He.
    + intros t e He. unfold first_report. by rewrite He.
    + intros sched t Ht. by apply syncConns_returns.
Qed.

Lemma syncConns_returns_first_report_witness :
  let st := relay_run (Some (OpError "read" ECONNRESET)) None
              [T_client_to_remote; T_client_to_remote; T_main; T_main; T_main] in
  clientClosed st = true /\ remoteClosed st = true /\
  exists t rest,
    sent st = (t, None) :: rest /\
    ((t = T_client_to_remote /\
      None = first_report t (Some (OpError "read" ECONNRESET))) \/
     (t = T_remote_to_client /\ None = first_report t None)).
Proof.
  apply (proj1 (syncConns_returns_first_report (Some (OpError "read" ECONNRESET)) None)
           [T_client_to_remote; T_client_to_remote; T_main; T_main; T_main] None).
  reflexivity.
Defined.

(** C8, counterexample.  A direction that ended with a connection reset
    does not make the relay return a clean close when the other direction
    reported a failure first, and a failure of a direction is not returned
    when the other direction reported a clean end first.  In both runs
    below the two copies have ended before the caller receives. *)
Lemma syncConns_not_every_reset_is_clean :
  (errors_Is (Some (OpError "read" ECONNRESET)) ECONNRESET = true /\
   g_r2c (relay_run (Some (OpError "write" EPIPE)) (Some (OpError "read" ECONNRESET))
            [T_client_to_remote; T_remote_to_client; T_client_to_remote; T_remote_to_client])
     <> GCopy /\
   syncConns (Some (OpError "write" EPIPE)) (Some (OpError "read" ECONNRESET))
     [T_client_to_remote; T_remote_to_client; T_client_to_remote; T_remote_to_client;
      T_main; T_main; T_main]
   = Some (Some (ErrorfW "error copying data from client to remote: %w" []
                         (OpError "write" EPIPE)))) /\
  (errors_Is (Some (OpError "write" EPIPE)) ECONNRESET = false /\
   g_r2c (relay_run None (Some (OpError "write" EPIPE))
            [T_client_to_remote; T_remote_to_client; T_client_to_remote; T_remote_to_client])
     <> GCopy /\
   syncConns None (Some (OpError "write" EPIPE))
     [T_client_to_remote; T_remote_to_client; T_client_to_remote; T_remote_to_client;
      T_main; T_main; T_main]
   = Some None).
Proof. repeat split; done. Qed.

(** ** Admission control *)

Lemma exited_insert (l : list hstate) (i : nat) (old new : hstate) :
  l !! i = Some old -> old <> HExited ->
  length (filter (fun h => h = HExited) (<[i := new]> l))
  = length (filter (fun h => h = HExited) l) + (if decide (new = HExited) then 1 else 0).
Proof.
  revert i. induction l as [| h l IH]; intros i Hi Hold; [done |].
  destruct i as [| i]; simpl in *.
  - injection Hi as ->. rewrite (filter_cons_False _ old) by done.
    destruct (decide (new = HExited)) as [-> | Hn].
    + rewrite filter_cons_True by done. simpl. lia.
    + rewrite filter_cons_False by done. lia.
  - destruct (decide (h = HExited)) as [-> | Hh].
    + rewrite !filter_cons_True by done. simpl. rewrite (IH i) by done. lia.
    + rewrite !filter_cons_False by done. by apply IH.
Qed.

Lemma start_step_inv (limit : nat) (st : StartState) (m : move) :
  start_inv limit st -> start_inv limit (start_step st m).
Proof.
  intros Hinv. pose proof Hinv as (ch & Hsem & Hcap & Hlen & Hle).
  destruct m as [| | | | i]; simpl.
  - destruct (loop st); try done. rewrite Hsem. by exists ch.
  - by destruct (loop st).
  - done.
  - destruct (loop st); try done.
    rewrite Hsem. unfold chan_send.
    destruct (decide (length (buf ch) < cap ch)) as [Hroom | Hfull]; [| done].
    eexists. split; [done |]. simpl. split; [done |].
    unfold exited in *. simpl. rewrite length_app, filter_app, length_app.
    rewrite filter_cons_False by done. simpl. rewrite length_app. simpl. lia.
  - unfold handler_step.
    destruct (handlers st !! i) as [[| | |] |] eqn:Hi; try done.
    + exists ch. repeat split; try done. simpl.
      unfold exited in *. simpl. rewrite length_insert.
      rewrite (exited_insert _ i HStart) by done. simpl. lia.
    + exists ch. repeat split; try done. simpl.
      unfold exited in *. simpl. rewrite length_insert, Hsem.
      rewrite (exited_insert _ i HHandling) by done. simpl. lia.
    + rewrite Hsem. unfold chan_send.
      destruct (decide (length (buf ch) < cap ch)) as [Hroom | Hfull]; [| done].
      eexists. split; [done |]. simpl. split; [done |].
      unfold exited in *. simpl. rewrite length_insert.
      rewrite (exited_insert _ i HRelease) by done. simpl.
      rewrite length_app. simpl. lia.
Qed.

Lemma Start_inv (s : Server) (sched : list move) :
  0 < openConnLimit s -> start_inv (openConnLimit s) (Start s sched).
Proof.
  intros Hpos. unfold Start.
  assert (start_inv (openConnLimit s) (start_init s)) as H0.
  { unfold start_init. rewrite decide_True by done.
    eexists. split; [done |]. simpl. repeat split; lia. }
  revert H0. generalize (start_init s).
  induction sched as [| m sched IH]; intros st Hst; [done |].
  simpl. apply IH. by apply start_step_inv.
Qed.

Lemma start_step_handlers_mono (st : StartState) (m : move) :
  length (handlers st) <= length (handlers (start_step st m)).
Proof.
  destruct m as [| | | | i]; simpl.
  - destruct (loop st); try done.
    destruct (semaphore st); simpl; [done | rewrite length_app; lia].
  - by destruct (loop st).
  - done.
  - destruct (loop st); try done.
    destruct (semaphore st) as [ch |]; simpl.
    + destruct (chan_send tt ch); simpl; [rewrite length_app; lia | done].
    + rewrite length_app. lia.
  - unfold handler_step.
    destruct (handlers st !! i) as [[| | |] |]; simpl; rewrite ?length_insert; try done.
    destruct (semaphore st) as [ch |]; [| done].
    destruct (chan_send tt ch); simpl; rewrite ?length_insert; done.
Qed.

Lemma fold_start_step_handlers_mono (sched : list move) (st : StartState) :
  length (handlers st) <= length (handlers (fold_left start_step sched st)).
Proof.
  revert st. induction sched as [| m sched IH]; intros st; [done |].
  simpl. etrans; [apply (start_step_handlers_mono st m) | apply IH].
Qed.

(** C9, as the code behaves.  Under a positive limit [N], a connection is
    admitted only by a send on the semaphore that goes through, and so is
    every release; no value ever leaves the semaphore.  Hence the
    connections admitted over the whole life of the server, together with
    the releases that went through, never exceed [N]: once [N] connections
    have been admitted no further connection is admitted, whatever
    completes afterwards. *)
Theorem Start_release_frees_no_slot (s : Server) (sched : list move) :
  0 < openConnLimit s ->
  length (handlers (Start s sched)) + exited (Start s sched) <= openConnLimit s /\
  open_handlers (Start s sched) <= openConnLimit s /\
  (length (handlers (Start s sched)) = openConnLimit s ->
   forall sched',
     length (handlers (Start s (sched ++ sched'))) = openConnLimit s /\
     exited (Start s (sched ++ sched')) = 0).
Proof.
  intros Hpos.
  assert (forall sc, length (handlers (Start s sc)) + exited (Start s sc) <= openConnLimit s)
    as Hbound.
  { intros sc. destruct (Start_inv s sc Hpos) as (ch & _ & _ & Hlen & Hle). lia. }
  split; [apply Hbound |]. split.
  - pose proof (Hbound sched) as Hb. unfold open_handlers.
    pose proof (length_filter (fun h => h = HStart \/ h = HHandling)
                  (handlers (Start s sched))). lia.
  - intros Hfull sched'.
    pose proof (Hbound (sched ++ sched')) as Hb.
    pose proof (fold_start_step_handlers_mono sched' (Start s sched)) as Hmono.
    unfold Start in *. rewrite fold_left_app. rewrite fold_left_app in Hb. lia.
Qed.

Lemma Start_release_frees_no_slot_witness :
  handlers (Start one_slot two_clients) = [HRelease] /\
  loop (Start one_slot two_clients) = LAcquire /\
  forall sched',
    length (handlers (Start one_slot (two_clients ++ sched'))) = 1 /\
    exited (Start one_slot (two_clients ++ sched')) = 0.
Proof.
  split; [reflexivity | split; [reflexivity |]].
  assert (0 < openConnLimit one_slot) as Hpos by (simpl; lia).
  exact (proj2 (proj2 (Start_release_frees_no_slot one_slot two_clients Hpos)) eq_refl).
Defined.

(* ===================================================================== *)
(** * Part III: further properties *)
(* ===================================================================== *)

(** ** Requests and replies that are accepted *)

Lemma take_drop_2 (l : list byte) (n : nat) :
  n + 2 <= length l ->
  exists field port, take (n + 2) l = field ++ port /\ length field = n /\ length port = 2.
Proof.
  intros Hl. exists (take n l), (take 2 (drop n l)).
  split; [by rewrite take_take_drop |].
  rewrite !length_take, length_drop. lia.
Qed.

(** [readSocks5Request] succeeds only on a well-formed CONNECT request; it
    returns the bytes it consumed, all of them, and writes nothing. *)
Lemma readSocks5Request_accepts_only_connect_aux (c c' : Conn) (req : list byte) :
  readSocks5Request c = (Ok req, c') ->
  exists rsv atyp field port,
    wf_addr atyp field /\ length port = 2 /\
    req = [_SOCKS_VERSION; _CONNECT; rsv; atyp] ++ field ++ port /\
    rd c = req ++ rd c' /\ wr c' = wr c /\ wres c' = wres c.
Proof.
  destruct c as [s w ws].
  destruct s as [| b0 [| b1 [| b2 [| b3 tl]]]]; try done.
  unfold readSocks5Request, IPv4len, IPv6len. io_unfold.
  rewrite ReadFull_ok by (simpl; lia).
  cbn [rd wr wres].
  change (take 4 (b0 :: b1 :: b2 :: b3 :: tl)) with [b0; b1; b2; b3].
  change (drop 4 (b0 :: b1 :: b2 :: b3 :: tl)) with tl.
  change ([b0; b1; b2; b3] !!! 0) with b0.
  change ([b0; b1; b2; b3] !!! 1) with b1.
  change ([b0; b1; b2; b3] !!! 3) with b3.
  byte_case b0 _SOCKS_VERSION Hv; cbn [negb]; [| done].
  byte_case b1 _CONNECT Hc; cbn [negb]; [| done].
  subst b0 b1.
  byte_case b3 _IP_V4 H4.
  { destruct (decide (4 + 2 <= length tl)) as [Hl | Hl].
    - rewrite ReadFull_ok by done. cbn [rd wr wres]. intros [= <- <-].
      destruct (take_drop_2 tl 4 Hl) as (field & port & Ht & Hf & Hp).
      exists b2, b3, field, port. rewrite <- Ht. cbn [rd wr wres].
      split; [by left |]. split; [done |]. split; [done |].
      split; [| done]. simpl. by rewrite take_drop.
    - rewrite ReadFull_short by (simpl; lia). done. }
  byte_case b3 _DOMAIN_NAME Hd.
  { destruct tl as [| l tl'].
    - by rewrite ReadFull_short by (simpl; lia).
    - rewrite ReadFull_ok by (simpl; lia). cbn [rd wr wres].
      change (take 1 (l :: tl')) with [l]. change (drop 1 (l :: tl')) with tl'.
      change ([l] !!! 0) with l.
      destruct (decide (int_of_byte l + 2 <= length tl')) as [Hl | Hl].
      + rewrite ReadFull_ok by done. cbn [rd wr wres]. intros [= <- <-].
        destruct (take_drop_2 tl' (int_of_byte l) Hl) as (name & port & Ht & Hf & Hp).
        exists b2, b3, (l :: name), port. cbn [rd wr wres].
        split; [right; right; split; [done | by exists l, name] |].
        split; [done |].
        split; [simpl; by rewrite Ht |].
        split; [| done]. simpl. by rewrite take_drop.
      + rewrite ReadFull_short by (simpl; lia). done. }
  byte_case b3 _IP_V6 H6; [| done].
  destruct (decide (16 + 2 <= length tl)) as [Hl | Hl].
  - rewrite ReadFull_ok by done. cbn [rd wr wres]. intros [= <- <-].
    destruct (take_drop_2 tl 16 Hl) as (field & port & Ht & Hf & Hp).
    exists b2, b3, field, port. rewrite <- Ht. cbn [rd wr wres].
    split; [right; by left |]. split; [done |]. split; [done |].
    split; [| done]. simpl. by rewrite take_drop.
  - rewrite ReadFull_short by (simpl; lia). done.
Qed.

(** [readSocks5Response] succeeds only on a well-formed reply with version
    5 and reply code success; it consumes the whole reply and nothing
    more, writes nothing, and returns the reply with the address field as
    [returned_field] gives it. *)
Lemma readSocks5Response_accepts_only_success_aux (c c' : Conn) (resp : list byte) :
  readSocks5Response c = (Ok resp, c') ->
  exists rsv atyp field port,
    wf_addr atyp field /\ length port = 2 /\
    rd c = [_SOCKS_VERSION; _STATUS_OK; rsv; atyp] ++ field ++ port ++ rd c' /\
    resp = [_SOCKS_VERSION; _STATUS_OK; rsv; atyp] ++ returned_field atyp field ++ port /\
    wr c' = wr c /\ wres c' = wres c.
Proof.
  destruct c as [s w ws].
  destruct s as [| b0 [| b1 [| b2 [| b3 tl]]]]; try done.
  unfold readSocks5Response, returned_field, IPv4len, IPv6len. io_unfold.
  rewrite ReadFull_ok by (simpl; lia).
  cbn [rd wr wres].
  change (take 4 (b0 :: b1 :: b2 :: b3 :: tl)) with [b0; b1; b2; b3].
  change (drop 4 (b0 :: b1 :: b2 :: b3 :: tl)) with tl.
  change ([b0; b1; b2; b3] !!! 0) with b0.
  change ([b0; b1; b2; b3] !!! 1) with b1.
  change ([b0; b1; b2; b3] !!! 3) with b3.
  byte_case b0 _SOCKS_VERSION Hv; cbn [negb]; [| done].
  byte_case b1 _STATUS_OK Hc; [| by destruct (reply_message b1)].
  subst b0 b1.
  byte_case b3 _IP_V4 H4.
  { destruct (decide (4 + 2 <= length tl)) as [Hl | Hl].
    - rewrite ReadFull_ok by done. cbn [rd wr wres]. intros [= <- <-].
      destruct (take_drop_2 tl 4 Hl) as (field & port & Ht & Hf & Hp).
      exists b2, b3, field, port. cbn [rd wr wres].
      rewrite bool_decide_eq_false_2 by (by rewrite H4).
      split; [by left |]. split; [done |].
      split; [simpl; by rewrite app_assoc, <- Ht, take_drop |].
      split; [by rewrite <- Ht | done].
    - rewrite ReadFull_short by (simpl; lia). done. }
  byte_case b3 _DOMAIN_NAME Hd.
  { destruct tl as [| l tl'].
    - by rewrite ReadFull_short by (simpl; lia).
    - rewrite ReadFull_ok by (simpl; lia). cbn [rd wr wres].
      change (take 1 (l :: tl')) with [l]. change (drop 1 (l :: tl')) with tl'.
      change ([l] !!! 0) with l.
      destruct (decide (int_of_byte l + 2 <= length tl')) as [Hl | Hl].
      + rewrite ReadFull_ok by done. cbn [rd wr wres]. intros [= <- <-].
        destruct (take_drop_2 tl' (int_of_byte l) Hl) as (name & port & Ht & Hf & Hp).
        exists b2, b3, (l :: name), port. cbn [rd wr wres].
        rewrite bool_decide_eq_true_2 by done.
        split; [right; right; split; [done | by exists l, name] |].
        split; [done |].
        split; [simpl; by rewrite app_assoc, <- Ht, take_drop |].
        split; [by rewrite Ht | done].
      + rewrite ReadFull_short by (simpl; lia). done. }
  byte_case b3 _IP_V6 H6; [| done].
  destruct (decide (16 + 2 <= length tl)) as [Hl | Hl].
  - rewrite ReadFull_ok by done. cbn [rd wr wres]. intros [= <- <-].
    destruct (take_drop_2 tl 16 Hl) as (field & port & Ht & Hf & Hp).
    exists b2, b3, field, port. cbn [rd wr wres].
    rewrite bool_decide_eq_false_2 by done.
    split; [right; by left |]. split; [done |].
    split; [simpl; by rewrite app_assoc, <- Ht, take_drop |].
    split; [by rewrite <- Ht | done].
  - rewrite ReadFull_short by (simpl; lia). done.
Qed.

(** [sendRemoteRequest] succeeds only when the client sent a well-formed
    CONNECT request and the upstream answered it with a well-formed success
    reply.  It then has consumed exactly the request and the reply, has
    written the request to the upstream and the reply (with the address
    field as [returned_field] gives it) to the client, and nothing else. *)
Theorem sendRemoteRequest_success (p p' : Conns) :
  sendRemoteRequest p = (Ok tt, p') ->
  exists rsv atyp field port rsv' atyp' field' port',
    wf_addr atyp field /\ length port = 2 /\
    wf_addr atyp' field' /\ length port' = 2 /\
    rd (client p)
      = ([_SOCKS_VERSION; _CONNECT; rsv; atyp] ++ field ++ port) ++ rd (client p') /\
    rd (remote p)
      = [_SOCKS_VERSION; _STATUS_OK; rsv'; atyp'] ++ field' ++ port' ++ rd (remote p') /\
    wr (remote p')
      = wr (remote p) ++ [_SOCKS_VERSION; _CONNECT; rsv; atyp] ++ field ++ port /\
    wr (client p')
      = wr (client p) ++ [_SOCKS_VERSION; _STATUS_OK; rsv'; atyp']
          ++ returned_field atyp' field' ++ port'.
Proof.
  unfold sendRemoteRequest. io_unfold.
  destruct (readSocks5Request (client p)) as [[req | e] c1] eqn:Hreq;
    cbv beta iota; [| done].
  cbn [client remote].
  pose proof (snd_Write req (remote p)) as Hw1.
  destruct (Write req (remote p)) as [[[] | e] r1]; cbv beta iota; [| done].
  simpl in Hw1. subst r1. cbn [client remote].
  destruct (readSocks5Response _) as [[resp | e] r2] eqn:Hresp; cbv beta iota; [| done].
  cbn [client remote].
  pose proof (snd_Write resp c1) as Hw2.
  destruct (Write resp c1) as [[[] | e] c2]; cbv beta iota; [| done].
  simpl in Hw2. subst c2. intros [= <-]. cbn [client remote rd wr].
  apply readSocks5Request_accepts_only_connect_aux in Hreq
    as (rsv & atyp & field & port & Hwf & Hport & -> & Hrd & Hwr & _).
  apply readSocks5Response_accepts_only_success_aux in Hresp
    as (rsv' & atyp' & field' & port' & Hwf' & Hport' & Hrd' & -> & Hwr' & _).
  exists rsv, atyp, field, port, rsv', atyp', field', port'.
  cbn [rd wr wres] in *. rewrite Hwr, Hwr'. by repeat split.
Qed.

(** [readSocks5Request] succeeds exactly on the streams that start with a
    well-formed CONNECT request: version 5, command CONNECT, an address
    field that fits the address type and two port bytes.  On success it
    returns the request, consumes it and nothing more, and writes nothing. *)
Theorem readSocks5Request_accepts_exactly_connect (c : Conn) :
  (is_Ok (fst (readSocks5Request c)) = true <->
   exists rsv atyp field port tl,
     wf_addr atyp field /\ length port = 2 /\
     rd c = [_SOCKS_VERSION; _CONNECT; rsv; atyp] ++ field ++ port ++ tl) /\
  (forall req c',
     readSocks5Request c = (Ok req, c') ->
     rd c = req ++ rd c' /\ wr c' = wr c /\ wres c' = wres c).
Proof.
  split; [split |].
  - destruct (readSocks5Request c) as [[req | e] c'] eqn:Hrun; [intros _ | done].
    apply readSocks5Request_accepts_only_connect_aux in Hrun
      as (rsv & atyp & field & port & Hwf & Hport & -> & Hrd & _).
    exists rsv, atyp, field, port, (rd c'). by rewrite <- !app_assoc in Hrd.
  - intros (rsv & atyp & field & port & tl & Hwf & Hport & Hrd).
    destruct c as [s w ws]. cbn [rd] in Hrd. subst s.
    by rewrite readSocks5Request_wf.
  - intros req c' Hrun.
    apply readSocks5Request_accepts_only_connect_aux in Hrun
      as (rsv & atyp & field & port & _ & _ & -> & Hrd & Hwr & Hws).
    done.
Qed.

Lemma readSocks5Request_accepts_exactly_connect_witness :
  is_Ok (fst (readSocks5Request
                (mkConn ([x05; x01; x00; x01] ++ [x7f; x00; x00; x01] ++ [x00; x50] ++ [xaa])
                        [] []))) = true.
Proof.
  apply (proj1 (readSocks5Request_accepts_exactly_connect _)).
  exists x00, x01, [x7f; x00; x00; x01], [x00; x50], [xaa].
  split; [by left | done].
Defined.



Lemma sendRemoteRequest_success_witness :
  exists rsv atyp field port rsv' atyp' field' port',
    wf_addr atyp field /\ length port = 2 /\
    wf_addr atyp' field' /\ length port' = 2 /\
    [x05; x01; x00; x03; x01; x61; x00; x50; xaa]
      = ([_SOCKS_VERSION; _CONNECT; rsv; atyp] ++ field ++ port) ++ [xaa] /\
    [x05; x00; x00; x01; x7f; x00; x00; x01; x00; x50; xbb]
      = [_SOCKS_VERSION; _STATUS_OK; rsv'; atyp'] ++ field' ++ port' ++ [xbb] /\
    [x05; x01; x00; x03; x01; x61; x00; x50]
      = [] ++ [_SOCKS_VERSION; _CONNECT; rsv; atyp] ++ field ++ port /\
    [x05; x00; x00; x01; x7f; x00; x00; x01; x00; x50]
      = [] ++ [_SOCKS_VERSION; _STATUS_OK; rsv'; atyp']
          ++ returned_field atyp' field' ++ port'.
Proof.
  exact (sendRemoteRequest_success
           (mkConns (mkConn [x05; x01; x00; x03; x01; x61; x00; x50; xaa] [] [])
                    (mkConn [x05; x00; x00; x01; x7f; x00; x00; x01; x00; x50; xbb] [] []))
           (mkConns (mkConn [xaa] [x05; x00; x00; x01; x7f; x00; x00; x01; x00; x50] [])
                    (mkConn [xbb] [x05; x01; x00; x03; x01; x61; x00; x50] []))
           eq_refl).
Defined.

(** ** What the greeting and the authentication write *)

Lemma greetClient_short_header (s w : list byte) ws :
  length s < 2 ->
  greetClient (mkConn s w ws)
  = (Err (ErrorfW "error reading header: %w" []
            (match s with [] => io_EOF | _ => io_ErrUnexpectedEOF end)),
     mkConn [] w ws).
Proof.
  intros Hl. unfold greetClient, bind, wrapErr, catch.
  by rewrite ReadFull_short by done.
Qed.

Lemma greetClient_bad_version (v n : byte) (tl w : list byte) ws :
  v <> _SOCKS_VERSION ->
  greetClient (mkConn (v :: n :: tl) w ws)
  = (Err (Errorf "unsupported SOCKS version: %d" [ArgInt (int_of_byte v)]),
     mkConn tl w ws).
Proof.
  intros Hv. unfold greetClient, bind, wrapErr, catch.
  rewrite (ReadFull_app [v; n] tl).
  change ([v; n] !!! 0) with v.
  by rewrite bool_decide_eq_false_2 by done.
Qed.

Lemma greetClient_short_methods (n : byte) (tl w : list byte) ws :
  length tl < int_of_byte n ->
  greetClient (mkConn (_SOCKS_VERSION :: n :: tl) w ws)
  = (Err (ErrorfW "error reading methods: %w" []
            (match tl with [] => io_EOF | _ => io_ErrUnexpectedEOF end)),
     mkConn [] w ws).
Proof.
  intros Hl. unfold greetClient. unfold bind at 1. unfold wrapErr at 1. unfold catch at 1.
  rewrite (ReadFull_app [_SOCKS_VERSION; n] tl).
  change ([_SOCKS_VERSION; n] !!! 0) with _SOCKS_VERSION.
  change ([_SOCKS_VERSION; n] !!! 1) with n.
  rewrite bool_decide_eq_true_2 by done. cbn [negb].
  unfold bind, wrapErr, catch. by rewrite ReadFull_short by done.
Qed.

(** Whatever the client sends, [greetClient] ends in one of three ways: it
    read a complete greeting of version 5 that offers method 0, answered
    [05 00] and succeeded; it read a complete greeting of version 5 that
    does not offer method 0, answered [05 ff] and failed; or it failed
    without writing anything (truncated greeting, or a version other than
    5, in which case the two header bytes are all it read). *)
Theorem greetClient_outcomes (c : Conn) :
  let r := fst (greetClient c) in
  let c' := snd (greetClient c) in
  (r = Ok tt /\ wr c' = wr c ++ [x05; x00] /\
   exists n methods, rd c = x05 :: n :: methods ++ rd c' /\
     length methods = int_of_byte n /\ x00 ∈ methods) \/
  (r = Err (Errorf "no supported authentication methods" []) /\
   wr c' = wr c ++ [x05; xff] /\
   exists n methods, rd c = x05 :: n :: methods ++ rd c' /\
     length methods = int_of_byte n /\ x00 ∉ methods) \/
  ((exists e, r = Err e) /\ wr c' = wr c /\ wres c' = wres c /\
   (forall v n tl, rd c = v :: n :: tl -> v <> x05 ->
      r = Err (Errorf "unsupported SOCKS version: %d" [ArgInt (int_of_byte v)]) /\
      rd c' = tl)).
Proof.
  destruct c as [s w ws]. cbn zeta.
  destruct s as [| v [| n tl]].
  - right; right. rewrite greetClient_short_header by (simpl; lia).
    cbn. split; [eauto |]. by repeat split.
  - right; right. rewrite greetClient_short_header by (simpl; lia).
    cbn. split; [eauto |]. by repeat split.
  - destruct (decide (v = _SOCKS_VERSION)) as [-> | Hv].
    + destruct (decide (int_of_byte n <= length tl)) as [Hl | Hl].
      * assert (exists methods rest, tl = methods ++ rest /\ length methods = int_of_byte n)
          as (methods & rest & -> & Hlen).
        { exists (take (int_of_byte n) tl), (drop (int_of_byte n) tl).
          split; [by rewrite take_drop | rewrite length_take; lia]. }
        rewrite (greetClient_run n methods rest w ws Hlen).
        destruct (contains methods _NO_AUTHENTICATION) eqn:Hc.
        -- left. cbn [fst snd rd wr]. split; [done |]. split; [done |].
           exists n, methods. split; [done |]. split; [done |].
           by apply contains_elem_of.
        -- right; left. cbn [fst snd rd wr]. split; [done |]. split; [done |].
           exists n, methods. split; [done |]. split; [done |].
           intros Hin. apply contains_elem_of in Hin.
           unfold _NO_AUTHENTICATION in Hc. congruence.
      * right; right. rewrite greetClient_short_methods by lia.
        cbn. split; [eauto |]. split; [done |]. split; [done |].
        by intros v' n' tl' [= <- <- <-] Hne.
    + right; right. rewrite greetClient_bad_version by done.
      cbn. split; [eauto |]. split; [done |]. split; [done |].
      by intros v' n' tl' [= <- <- <-] _.
Qed.

Lemma Write_run (b : list byte) (c : Conn) :
  Write b c = (match wres c with Some e :: _ => Err e | _ => Ok tt end,
               mkConn (rd c) (wr c ++ b) (tail (wres c))).
Proof. unfold Write. by destruct (wres c) as [| [e |] ?]. Qed.

Lemma next_writes_succeed_cons (n : nat) (r w : list byte) (ws : list (option error)) :
  next_writes_succeed (S n) (mkConn r w (None :: ws)) <->
  next_writes_succeed n (mkConn r w ws).
Proof.
  unfold next_writes_succeed. simpl. split.
  - intros H i e Hi. apply (H (S i) e). lia.
  - intros H [| i] e Hi; [done |]. simpl. apply H. lia.
Qed.

Lemma next_writes_succeed_nil (n : nat) (r w : list byte) :
  next_writes_succeed n (mkConn r w []).
Proof. intros i e _. simpl. by rewrite lookup_nil. Qed.

Lemma next_writes_succeed_fail (n : nat) (r w : list byte) (e : error) ws :
  ~ next_writes_succeed (S n) (mkConn r w (Some e :: ws)).
Proof. intros H. apply (H 0 e); [lia | done]. Qed.

(** [authenticateRemoteSocks] writes the method-selection message first.
    It writes the credentials after it, and nothing else, only when that
    first write succeeded and the second byte of the upstream's answer
    selects username/password; otherwise it fails having written the
    method-selection message alone.  It succeeds exactly when both writes
    succeed, the answer selects method 02 and the second byte of the
    status reply is 00; the first byte of either reply is not looked at. *)
Theorem authenticateRemoteSocks_outcomes (username password : string) (c : Conn) :
  let r := fst (authenticateRemoteSocks username password c) in
  let c' := snd (authenticateRemoteSocks username password c) in
  ((wr c' = wr c ++ authMethods /\ exists e, r = Err e) \/
   (wr c' = wr c ++ authMethods ++ authRequest username password /\
    next_writes_succeed 1 c /\
    exists ver tl, rd c = ver :: _USERNAME_PASSWORD_AUTH :: tl)) /\
  (r = Ok tt <->
   next_writes_succeed 2 c /\
   exists ver1 ver2 tl,
     rd c = ver1 :: _USERNAME_PASSWORD_AUTH :: ver2 :: _STATUS_OK :: tl).
Proof.
  destruct c as [s w ws]. cbn zeta.
  destruct (authenticateRemoteSocks username password (mkConn s w ws)) as [r c'] eqn:Hrun.
  cbn [fst snd rd wr].
  unfold authenticateRemoteSocks in Hrun.
  unfold bind at 1 in Hrun. unfold wrapErr at 1 in Hrun. unfold catch at 1 in Hrun.
  rewrite Write_run in Hrun. cbn [rd wr wres] in Hrun.
  destruct ws as [| [e1 |] ws].
  2: { (* the first write fails *)
    unfold throw in Hrun. injection Hrun as <- <-. cbn [wr]. split.
    - left. eauto.
    - split; [done |]. intros [Hw _]. by apply next_writes_succeed_fail in Hw. }
  all: cbn [tail] in Hrun.
  all: unfold bind at 1 in Hrun; unfold wrapErr at 1 in Hrun; unfold catch at 1 in Hrun.
  all: destruct s as [| v1 [| m tl]];
    [ rewrite ReadFull_short in Hrun by (simpl; lia); unfold throw in Hrun;
      injection Hrun as <- <-; cbn [wr]; split;
      [left; eauto | split; [done | by intros (_ & ? & ? & ? & ?)]] ..
    | rewrite (ReadFull_app [v1; m] tl) in Hrun;
      change ([v1; m] !!! 1) with m in Hrun ].
  all: destruct (decide (m = _USERNAME_PASSWORD_AUTH)) as [-> | Hm];
    [ rewrite bool_decide_eq_true_2 in Hrun by done
    | rewrite bool_decide_eq_false_2 in Hrun by done; unfold throw in Hrun;
      cbn [negb] in Hrun; injection Hrun as <- <-; cbn [wr]; split;
      [left; eauto
      | split; [done | intros (_ & ? & ? & ? & [= _ ? _]); congruence]] ].
  all: cbn [negb] in Hrun.
  all: unfold bind at 1 in Hrun; unfold wrapErr at 1 in Hrun; unfold catch at 1 in Hrun.
  all: rewrite Write_run in Hrun; cbn [rd wr wres] in Hrun.
  all: rewrite <- app_assoc in Hrun.
  - (* no write outcome given: both writes succeed *)
    cbn [tail] in Hrun.
    unfold bind, wrapErr, catch, throw, ret in Hrun.
    destruct tl as [| v2 [| st tl']].
    + rewrite ReadFull_short in Hrun by (simpl; lia). injection Hrun as <- <-. cbn [wr].
      split; [right; split; [done | split; [apply next_writes_succeed_nil | eauto]] |].
      split; [done | by intros (_ & ? & ? & ? & ?)].
    + rewrite ReadFull_short in Hrun by (simpl; lia). injection Hrun as <- <-. cbn [wr].
      split; [right; split; [done | split; [apply next_writes_succeed_nil | eauto]] |].
      split; [done | by intros (_ & ? & ? & ? & ?)].
    + rewrite (ReadFull_app [v2; st] tl') in Hrun.
      change ([v2; st] !!! 1) with st in Hrun.
      destruct (decide (st = _STATUS_OK)) as [-> | Hst].
      * rewrite bool_decide_eq_true_2 in Hrun by done. injection Hrun as <- <-. cbn [wr].
        split; [right; split; [done | split; [apply next_writes_succeed_nil | eauto]] |].
        split; [intros _ | done]. split; [apply next_writes_succeed_nil | eauto].
      * rewrite bool_decide_eq_false_2 in Hrun by done. injection Hrun as <- <-. cbn [wr].
        split; [right; split; [done | split; [apply next_writes_succeed_nil | eauto]] |].
        split; [done | intros (_ & ? & ? & ? & [= _ _ ? _]); congruence].
  - (* the first write succeeds *)
    assert (next_writes_succeed 1 (mkConn (v1 :: _USERNAME_PASSWORD_AUTH :: tl) w (None :: ws)))
      as Hw1 by (apply next_writes_succeed_cons; intros i e Hi; lia).
    destruct ws as [| [e2 |] ws].
    2: { (* the second write fails *)
      unfold throw in Hrun. injection Hrun as <- <-. cbn [wr].
      split; [right; split; [done | split; [done | eauto]] |].
      split; [done |]. intros [Hw _].
      apply (proj1 (next_writes_succeed_cons _ _ _ _)) in Hw.
      by apply next_writes_succeed_fail in Hw. }
    all: cbn [tail] in Hrun.
    all: unfold bind, wrapErr, catch, throw, ret in Hrun.
    all: destruct tl as [| v2 [| st tl']];
      [ rewrite ReadFull_short in Hrun by (simpl; lia); injection Hrun as <- <-; cbn [wr];
        split; [right; split; [done | split; [done | eauto]] |];
        split; [done | by intros (_ & ? & ? & ? & ?)] ..
      | rewrite (ReadFull_app [v2; st] tl') in Hrun;
        change ([v2; st] !!! 1) with st in Hrun ].
    all: destruct (decide (st = _STATUS_OK)) as [-> | Hst];
      [ rewrite bool_decide_eq_true_2 in Hrun by done
      | rewrite bool_decide_eq_false_2 in Hrun by done; injection Hrun as <- <-; cbn [wr];
        split; [right; split; [done | split; [done | eauto]] |];
        split; [done | intros (_ & ? & ? & ? & [= _ _ ? _]); congruence] ].
    all: injection Hrun as <- <-; cbn [wr].
    all: split; [right; split; [done | split; [done | eauto]] |].
    all: split; [intros _ | done]; split; [| eauto].
    + apply next_writes_succeed_cons, next_writes_succeed_nil.
    + apply next_writes_succeed_cons, next_writes_succeed_cons.
      intros i e Hi. lia.
Qed.

(** ** Credentials longer than a length byte *)

Lemma int_of_byte_of_int (n : nat) : int_of_byte (byte_of_int n) = n mod 256.
Proof.
  rewrite <- (byte_of_int_small (n mod 256)).
  - unfold byte_of_int. by rewrite Nat.Div0.mod_mod.
  - pose proof (Nat.mod_upper_bound n 256). lia.
Qed.

(** [authenticateRemoteSocks] builds the subnegotiation message without
    looking at the lengths of the credentials: whatever they are, the
    message holds both of them in full (its length is 3 plus the two
    lengths), and each length byte is the length modulo 256.  So for a
    username or a password of more than 255 bytes the length byte is not
    the length of the field that follows it. *)
Theorem authRequest_length_bytes (username password : string) :
  let a := authRequest username password in
  length a = 3 + String.length username + String.length password /\
  take (String.length username) (drop 2 a) = list_byte_of_string username /\
  drop (3 + String.length username) a = list_byte_of_string password /\
  int_of_byte (a !!! 1) = String.length username mod 256 /\
  int_of_byte (a !!! (2 + String.length username)) = String.length password mod 256 /\
  (255 < String.length username -> int_of_byte (a !!! 1) <> String.length username) /\
  (255 < String.length password ->
     int_of_byte (a !!! (2 + String.length username)) <> String.length password).
Proof.
  cbn zeta. rewrite authRequest_layout.
  pose proof (length_list_byte_of_string username) as Hu.
  pose proof (length_list_byte_of_string password) as Hp.
  set (U := list_byte_of_string username) in *.
  set (P := list_byte_of_string password) in *.
  rewrite <- Hu, <- Hp.
  assert (forall x y : byte,
            ([x; y] ++ U ++ [byte_of_int (length P)] ++ P) !!! (2 + length U)
            = byte_of_int (length P)) as Hidx.
  { intros x y. change ([x; y] ++ U ++ [byte_of_int (length P)] ++ P)
      with (x :: y :: U ++ byte_of_int (length P) :: P).
    change (2 + length U) with (S (S (length U))).
    rewrite !lookup_total_cons_ne_0 by lia. simpl.
    rewrite lookup_total_app_r by lia. by rewrite Nat.sub_diag. }
  rewrite Hidx.
  change (([x01; byte_of_int (length U)] ++ U ++ [byte_of_int (length P)] ++ P) !!! 1)
    with (byte_of_int (length U)).
  rewrite !int_of_byte_of_int.
  split; [rewrite !length_app; simpl; lia |].
  split.
  { change (drop 2 ([x01; byte_of_int (length U)] ++ U ++ [byte_of_int (length P)] ++ P))
      with (U ++ [byte_of_int (length P)] ++ P).
    by rewrite take_app_length. }
  split.
  { replace ([x01; byte_of_int (length U)] ++ U ++ [byte_of_int (length P)] ++ P)
      with (([x01; byte_of_int (length U)] ++ U ++ [byte_of_int (length P)]) ++ P)
      by (by rewrite <- !app_assoc).
    rewrite drop_app_length'; [done |]. rewrite !length_app. simpl. lia. }
  split; [done |]. split; [done |].
  split; intros Hlen Heq;
    [pose proof (Nat.mod_upper_bound (length U) 256)
    | pose proof (Nat.mod_upper_bound (length P) 256)]; lia.
Qed.


(** ** The address dialled *)

Lemma index_colon_append (h : string) :
  String.index 0 ":" (h +:+ ":1080") <> None.
Proof.
  induction h as [| a h IH]; [done |].
  change (String a h +:+ ":1080")%string with (String a (h +:+ ":1080")).
  cbn [String.index].
  destruct (String.prefix ":" (String a (h +:+ ":1080"))); [done |].
  by destruct (String.index 0 ":" (h +:+ ":1080")).
Qed.

Lemma Contains_colon_append (h : string) : Contains (h +:+ ":1080") ":" = true.
Proof.
  unfold Contains. pose proof (index_colon_append h).
  by destruct (String.index 0 ":" (h +:+ ":1080")).
Qed.

Lemma prefix_append (pre h : string) : String.prefix pre (pre +:+ h) = true.
Proof.
  induction pre as [| a pre IH]; simpl; [by destruct h |].
  destruct (Ascii.ascii_dec a a); [exact IH | done].
Qed.

Lemma substring_all (h : string) : String.substring 0 (String.length h) h = h.
Proof. induction h as [| a h IH]; simpl; [done | by rewrite IH]. Qed.

Lemma substring_append (pre h : string) :
  String.substring (String.length pre) (String.length h) (pre +:+ h) = h.
Proof. induction pre as [| a pre IH]; simpl; [apply substring_all | exact IH]. Qed.

Lemma length_append (a b : string) :
  String.length (a +:+ b) = String.length a + String.length b.
Proof. induction a as [| x a IH]; simpl; [done | by rewrite IH]. Qed.

Lemma TrimPrefix_append (pre h : string) : TrimPrefix (pre +:+ h) pre = h.
Proof.
  unfold TrimPrefix. rewrite prefix_append, length_append.
  replace (String.length pre + String.length h - String.length pre)
    with (String.length h) by lia.
  apply substring_append.
Qed.

(** [getTcpConn] consults the server finder only when [RemoteHost] is
    empty and returns the finder's error as it is.  Otherwise it dials
    exactly one address, and that address always contains a colon: the
    host without its [socks5://] prefix if a colon is left in it, the host
    followed by [:1080] if not.  A failed dial is returned wrapped with
    the address dialled.  A [RemoteHost] in the form [Start] stores in
    [Addr], [socks5://] before a host with its port, is dialled as that
    host and port. *)
Theorem getTcpConn_address (s : Server) (finder : result string)
    (dial : string -> result Conn) :
  (RemoteHost s <> ""%string ->
   forall finder', getTcpConn s finder' dial = getTcpConn s finder dial) /\
  (forall e, RemoteHost s = ""%string -> finder = Err e ->
     getTcpConn s finder dial = Err e) /\
  (forall h,
     (RemoteHost s <> ""%string /\ RemoteHost s = h) \/
     (RemoteHost s = ""%string /\ finder = Ok h) ->
     let bare := TrimPrefix h "socks5://" in
     let host := if Contains bare ":" then bare else (bare +:+ ":1080")%string in
     Contains host ":" = true /\
     getTcpConn s finder dial =
       match dial host with
       | Ok conn => Ok (conn, host)
       | Err err =>
           Err (ErrorfW "error connecting to remote server (%s): %w" [ArgStr host] err)
       end) /\
  (forall hp, RemoteHost s = ("socks5://" +:+ hp)%string -> Contains hp ":" = true ->
     getTcpConn s finder dial =
       match dial hp with
       | Ok conn => Ok (conn, hp)
       | Err err =>
           Err (ErrorfW "error connecting to remote server (%s): %w" [ArgStr hp] err)
       end).
Proof.
  assert (forall h,
            (RemoteHost s <> ""%string /\ RemoteHost s = h) \/
            (RemoteHost s = ""%string /\ finder = Ok h) ->
            let bare := TrimPrefix h "socks5://" in
            let host := if Contains bare ":" then bare else (bare +:+ ":1080")%string in
            Contains host ":" = true /\
            getTcpConn s finder dial =
              match dial host with
              | Ok conn => Ok (conn, host)
              | Err err =>
                  Err (ErrorfW "error connecting to remote server (%s): %w"
                               [ArgStr host] err)
              end) as Hmain.
  { intros h Hh bare host. split.
    - unfold host. destruct (Contains bare ":") eqn:E; [done |].
      apply Contains_colon_append.
    - unfold getTcpConn.
      destruct Hh as [[Hne <-] | [-> ->]].
      + rewrite bool_decide_eq_false_2 by done. fold bare.
        unfold host. by destruct (Contains bare ":").
      + rewrite bool_decide_eq_true_2 by done. fold bare.
        unfold host. by destruct (Contains bare ":"). }
  split; [| split; [| split; [exact Hmain |]]].
  - intros Hne finder'. unfold getTcpConn. by rewrite bool_decide_eq_false_2.
  - intros e He ->. unfold getTcpConn. by rewrite bool_decide_eq_true_2.
  - intros hp Hs Hc.
    destruct (Hmain ("socks5://" +:+ hp)%string) as [_ Hrun].
    { left. split; [by rewrite Hs | done]. }
    rewrite Hrun. rewrite (TrimPrefix_append "socks5://" hp). by rewrite Hc.
Qed.

(** ** Whole sessions *)

(** A complete session.  The client offers no-authentication among its
    methods and sends a well-formed CONNECT request; the upstream answers
    the method selection with 02, the credentials with status 00 and the
    request with a success reply.  Then the handler runs all five stages;
    the client has been sent the method selection [05 00] and the reply as
    [readSocks5Response] returned it, and nothing else; the upstream has
    been sent the method offer, the credentials and the client's request
    unmodified, and nothing else; the bytes that follow on either side are
    left for the relay; and what is reported is the relay's error, if any.
    The write of the method selection may fail: [greetClient] does not
    look at its result. *)
Theorem handleConnection_full_session (s : Server) (finder : result string)
    (dial : string -> result Conn) (remoteHost remoteAddr : string)
    (relay : Conns -> option error)
    (n rsv atyp ver1 ver2 rsv' atyp' : byte)
    (methods field port ctl cw field' port' rtl rw : list byte)
    (cws rws : list (option error)) :
  length methods = int_of_byte n -> _NO_AUTHENTICATION ∈ methods ->
  wf_addr atyp field -> length port = 2 ->
  wf_addr atyp' field' -> length port' = 2 ->
  let request := [_SOCKS_VERSION; _CONNECT; rsv; atyp] ++ field ++ port in
  let reply := [_SOCKS_VERSION; _STATUS_OK; rsv'; atyp'] ++ field' ++ port' in
  let clientConn := mkConn (_SOCKS_VERSION :: n :: methods ++ request ++ ctl) cw cws in
  let remoteConn :=
    mkConn (ver1 :: _USERNAME_PASSWORD_AUTH :: ver2 :: _STATUS_OK :: reply ++ rtl) rw rws in
  getTcpConn s finder dial = Ok (remoteConn, remoteHost) ->
  (forall e, cws !! 1 <> Some (Some e)) ->
  next_writes_succeed 3 remoteConn ->
  let h := handleConnection s finder dial remoteAddr relay clientConn in
  let c' := mkConn ctl
              (cw ++ [_SOCKS_VERSION; _NO_AUTHENTICATION] ++
               [_SOCKS_VERSION; _STATUS_OK; rsv'; atyp'] ++
               returned_field atyp' field' ++ port')
              (tail (tail cws)) in
  let r' := mkConn rtl
              (rw ++ authMethods ++ authRequest (RemoteUser s) (RemotePass s) ++ request)
              (tail (tail (tail rws))) in
  stages h = [StGreet; StDial; StAuth; StForward; StRelay] /\
  client_after h = c' /\
  remote_after h = Some r' /\
  reported h =
    match relay (mkConns c' r') with
    | Some err => report s (ErrorfW "error syncing connections: %w" [] err)
    | None => None
    end.
Proof.
  intros Hlen Hin Hwf Hport Hwf' Hport' request reply clientConn remoteConn
         Hdial Hcw Hrw h c' r'.
  assert (greetClient clientConn
          = (Ok tt, mkConn (request ++ ctl)
                           (cw ++ [_SOCKS_VERSION; _NO_AUTHENTICATION]) (tail cws)))
    as Hgreet.
  { unfold clientConn. rewrite greetClient_run by done.
    apply contains_elem_of in Hin. by rewrite Hin. }
  assert (authenticateRemoteSocks (RemoteUser s) (RemotePass s) remoteConn
          = (Ok tt, mkConn (reply ++ rtl)
                           (rw ++ authMethods ++ authRequest (RemoteUser s) (RemotePass s))
                           (tail (tail rws)))) as Hauth.
  { unfold remoteConn. rewrite authenticateRemoteSocks_run.
    - by rewrite bool_decide_eq_true_2.
    - intros i e Hi. apply Hrw. lia. }
  assert (sendRemoteRequest
            (mkConns (mkConn (request ++ ctl)
                             (cw ++ [_SOCKS_VERSION; _NO_AUTHENTICATION]) (tail cws))
                     (mkConn (reply ++ rtl)
                             (rw ++ authMethods ++
                              authRequest (RemoteUser s) (RemotePass s))
                             (tail (tail rws))))
          = (Ok tt, mkConns c' r')) as Hsend.
  { unfold request, reply. rewrite sendRemoteRequest_run; try done.
    - unfold c', r', request. by rewrite <- !app_assoc.
    - intros i e Hi. cbn [wres]. replace i with 0 by lia.
      rewrite lookup_tail. apply Hcw.
    - intros i e Hi. cbn [wres]. replace i with 0 by lia.
      rewrite !lookup_tail. apply (Hrw 2). lia. }
  unfold h, handleConnection. rewrite Hgreet, Hdial, Hauth, Hsend. done.
Qed.

Lemma handleConnection_full_session_witness :
  let h := handleConnection e2e_server (Err io_EOF) (fun _ => Ok (e2e_remote x00))
             "203.0.113.7:1080" (fun _ => None) e2e_client in
  stages h = [StGreet; StDial; StAuth; StForward; StRelay] /\
  rd (client_after h) = [] /\ reported h = None.
Proof.
  cbn zeta.
  pose proof (handleConnection_full_session e2e_server (Err io_EOF)
                (fun _ => Ok (e2e_remote x00)) "proxy.example:1080" "203.0.113.7:1080"
                (fun _ => None)
                x01 x00 x01 x05 x01 x00 x01
                [x00] [x5d; xb8; xd8; x22] [x00; x50] [] []
                [x5d; xb8; xd8; x22] [x00; x50] [] [] [] []
                eq_refl) as H.
  destruct H as (Hs & Hc & _ & Hr).
  - constructor.
  - left. done.
  - done.
  - left. done.
  - done.
  - reflexivity.
  - intros e. done.
  - intros i e _. simpl. by rewrite lookup_nil.
  - split; [exact Hs |]. split; [| exact Hr].
    etrans; [exact (f_equal rd Hc) | reflexivity].
Defined.

Lemma authenticateRemoteSocks_other_method (username password : string)
    (ver m : byte) (tl w : list byte) (ws : list (option error)) :
  next_writes_succeed 1 (mkConn (ver :: m :: tl) w ws) ->
  m <> _USERNAME_PASSWORD_AUTH ->
  authenticateRemoteSocks username password (mkConn (ver :: m :: tl) w ws)
  = (Err (Errorf "server did not select username/password authentication, selected method: %d"
                 [ArgInt (int_of_byte m)]),
     mkConn tl (w ++ authMethods) (tail ws)).
Proof.
  intros Hw Hm.
  unfold authenticateRemoteSocks. unfold bind at 1. unfold wrapErr at 1. unfold catch.
  destruct (Write_ok authMethods (mkConn (ver :: m :: tl) w ws) 0 Hw) as [-> _].
  cbn [rd wr wres].
  unfold bind at 1. unfold wrapErr at 1. unfold catch.
  rewrite (ReadFull_app [ver; m] tl).
  change ([ver; m] !!! 1) with m.
  by rewrite bool_decide_eq_false_2.
Qed.

(** An upstream that does not select username/password.  The handler
    offers the upstream the single method 02 whatever the credentials of
    the server are, the empty ones included.  When the upstream selects
    any other method, no-authentication (00) included, the handler stops
    after the authentication stage: the upstream has been sent the method
    offer and nothing else, no credentials; the client's request is left
    unread and the client is sent nothing beyond the greeting's answer;
    and the error reported names the method selected. *)
Theorem handleConnection_upstream_selects_other_method (s : Server)
    (finder : result string) (dial : string -> result Conn)
    (remoteHost remoteAddr : string) (relay : Conns -> option error)
    (clientConn c1 : Conn) (ver m : byte) (tl w : list byte)
    (ws : list (option error)) :
  greetClient clientConn = (Ok tt, c1) ->
  let remoteConn := mkConn (ver :: m :: tl) w ws in
  getTcpConn s finder dial = Ok (remoteConn, remoteHost) ->
  next_writes_succeed 1 remoteConn ->
  m <> _USERNAME_PASSWORD_AUTH ->
  let h := handleConnection s finder dial remoteAddr relay clientConn in
  stages h = [StGreet; StDial; StAuth] /\
  client_after h = c1 /\
  remote_after h = Some (mkConn tl (w ++ [_SOCKS_VERSION; x01; _USERNAME_PASSWORD_AUTH])
                                (tail ws)) /\
  reported h =
    report s
      (ErrorfW "error authenticating with remote server (%s | %s): %w"
         [ArgStr remoteHost; ArgStr remoteAddr]
         (Errorf "server did not select username/password authentication, selected method: %d"
                 [ArgInt (int_of_byte m)])).
Proof.
  intros Hgreet remoteConn Hdial Hw Hm h.
  unfold h, handleConnection. rewrite Hgreet, Hdial.
  unfold remoteConn. by rewrite authenticateRemoteSocks_other_method.
Qed.

Lemma handleConnection_upstream_selects_other_method_witness :
  let s := mkServer "proxy.example:1080" "" "" 0 true in
  let h := handleConnection s (Err io_EOF)
             (fun _ => Ok (mkConn [x05; x00] [] [])) "203.0.113.7:1080"
             (fun _ => None) e2e_client in
  stages h = [StGreet; StDial; StAuth] /\
  remote_after h = Some (mkConn [] [x05; x01; x02] []).
Proof.
  cbn zeta.
  pose proof (handleConnection_upstream_selects_other_method
                (mkServer "proxy.example:1080" "" "" 0 true) (Err io_EOF)
                (fun _ => Ok (mkConn [x05; x00] [] [])) "proxy.example:1080"
                "203.0.113.7:1080" (fun _ => None) e2e_client
                (mkConn [x05; x01; x00; x01; x5d; xb8; xd8; x22; x00; x50] [x05; x00] [])
                x05 x00 [] [] [] eq_refl eq_refl) as H.
  destruct H as (Hs & _ & Hr & _).
  - intros i e _. simpl. by rewrite lookup_nil.
  - discriminate.
  - split; [exact Hs | exact Hr].
Defined.

(** ** Swap-remove, position by position *)

(** [removeAtIndexNoOrder] with an index in range: the last element takes
    the place of the removed one and every other element stays where it
    was.  Removing the last element keeps the order of the rest. *)
Theorem removeAtIndexNoOrder_positions {T : Type} (a : list T) (idx : nat) :
  idx < length a ->
  let a' := removeAtIndexNoOrder a (Z.of_nat idx) in
  length a' = length a - 1 /\
  (forall j, j < length a - 1 -> j <> idx -> a' !! j = a !! j) /\
  (idx < length a - 1 -> a' !! idx = a !! (length a - 1)) /\
  (idx = length a - 1 -> a' = take idx a).
Proof.
  intros Hidx. cbn zeta. unfold removeAtIndexNoOrder.
  rewrite bool_decide_eq_false_2 by lia. rewrite Nat2Z.id.
  destruct (lookup_lt_is_Some_2 a (length a - 1)) as [x Hx]; [lia |].
  rewrite Hx.
  split; [rewrite length_take, length_insert; lia |].
  split; [| split].
  - intros j Hj Hne. rewrite lookup_take_lt by lia.
    by rewrite list_lookup_insert_ne.
  - intros Hlt. rewrite lookup_take_lt by lia.
    rewrite list_lookup_insert_eq by lia. done.
  - intros ->. apply list_eq. intros j.
    destruct (decide (j < length a - 1)) as [Hj | Hj].
    + rewrite !lookup_take_lt by lia. rewrite list_lookup_insert_ne by lia. done.
    + rewrite !lookup_take_ge by lia. done.
Qed.

Lemma removeAtIndexNoOrder_positions_witness :
  let a' := removeAtIndexNoOrder [10; 20; 30; 40]%nat (Z.of_nat 1) in
  length a' = 3 /\ a' !! 1 = Some 40%nat /\ a' !! 2 = Some 30%nat.
Proof.
  cbn zeta.
  assert (1 < length [10; 20; 30; 40]%nat) as H by (simpl; lia).
  pose proof (removeAtIndexNoOrder_positions [10; 20; 30; 40]%nat 1 H) as (H1 & H2 & H3 & _).
  split; [exact H1 |]. split.
  - apply H3. simpl. lia.
  - apply (H2 2); simpl; lia.
Defined.

(** ** The filter of the discovery *)

Lemma findNordVpnServers_inner (server : nordServerEntry)
    (techs : list Tech.nordTechnology) (acc : list nordServer) :
  fold_left (fun socks5Servers tech =>
               if (Tech.ID tech =? 7)%Z then socks5Servers ++ [entry server]
               else socks5Servers) techs acc
  = acc ++ replicate (length (filter (fun tech => Tech.ID tech = 7%Z) techs)) (entry server).
Proof.
  revert acc. induction techs as [| tech techs IH]; intros acc; simpl.
  - by rewrite app_nil_r.
  - rewrite IH. destruct (Z.eqb_spec (Tech.ID tech) 7) as [H7 | H7].
    + rewrite filter_cons_True by done. simpl. by rewrite <- app_assoc.
    + by rewrite filter_cons_False.
Qed.

Lemma findNordVpnServers_outer (servers : list nordServerEntry) (acc : list nordServer) :
  fold_left
    (fun socks5Servers server =>
       if negb (String.eqb (Status (entry server)) "online") then socks5Servers
       else if (Load (entry server) >? 80)%Z then socks5Servers
       else
         fold_left
           (fun socks5Servers tech =>
              if (Tech.ID tech =? 7)%Z then socks5Servers ++ [entry server]
              else socks5Servers)
           (Technologies server) socks5Servers)
    servers acc
  = acc ++ flat_map kept servers.
Proof.
  revert acc. induction servers as [| server servers IH]; intros acc; simpl.
  - by rewrite app_nil_r.
  - rewrite IH. unfold kept at 2.
    destruct (String.eqb_spec (Status (entry server)) "online") as [Hs | Hs]; simpl.
    + destruct (Z.gtb_spec (Load (entry server)) 80) as [Hl | Hl].
      * rewrite bool_decide_eq_false_2 by lia. done.
      * rewrite bool_decide_eq_true_2 by (split; [done | lia]).
        rewrite findNordVpnServers_inner. by rewrite <- app_assoc.
    + rewrite bool_decide_eq_false_2 by (by intros [? _]). done.
Qed.

Lemma elem_of_kept (s : nordServer) (server : nordServerEntry) :
  s ∈ kept server <-> entry server = s /\ eligible server.
Proof.
  unfold kept, eligible, socks5_count.
  destruct (decide (Status (entry server) = "online"%string /\ (Load (entry server) <= 80)%Z))
    as [[Hs Hl] | Hno].
  - rewrite bool_decide_eq_true_2 by done.
    rewrite elem_of_replicate. split.
    + intros [-> Hn]. split; [done |]. split; [done |]. split; [done |].
      destruct (filter (fun tech => Tech.ID tech = 7%Z) (Technologies server))
        as [| tech l] eqn:Hf; [done |].
      assert (tech ∈ filter (fun tech => Tech.ID tech = 7%Z) (Technologies server))
        as Hin by (rewrite Hf; constructor).
      apply list_elem_of_filter in Hin as [H7 Hin]. eauto.
    + intros [<- (_ & _ & tech & Hin & H7)]. split; [done |].
      assert (tech ∈ filter (fun tech => Tech.ID tech = 7%Z) (Technologies server))
        as Hin' by (by apply list_elem_of_filter).
      destruct (filter (fun tech => Tech.ID tech = 7%Z) (Technologies server));
        [by apply elem_of_nil in Hin' | done].
  - rewrite bool_decide_eq_false_2 by done. split.
    + by intros ?%elem_of_nil.
    + intros [_ (Hs & Hl & _)]. by destruct Hno.
Qed.

(** [findNordVpnServers] returns the error of the fetch as it is.  From
    the entries fetched it returns, in their order, the entries that are
    online and loaded at most 80, each one once for every technology with
    [ID] 7 it lists: the result holds exactly the eligible entries, and an
    entry that lists the technology twice is returned twice. *)
Theorem findNordVpnServers_filter (servers : list nordServerEntry) :
  (forall err, findNordVpnServers (Err err) = Err err) /\
  findNordVpnServers (Ok servers) = Ok (flat_map kept servers) /\
  (forall s, s ∈ flat_map kept servers <->
             exists server, server ∈ servers /\ entry server = s /\ eligible server) /\
  (forall server, server ∈ servers ->
     Status (entry server) = "online"%string -> (Load (entry server) <= 80)%Z ->
     exists before after,
       flat_map kept servers
       = before ++ replicate (socks5_count server) (entry server) ++ after).
Proof.
  split; [done |]. split; [| split].
  - unfold findNordVpnServers. by rewrite findNordVpnServers_outer.
  - intros s. rewrite list_elem_of_In, in_flat_map. split.
    + intros (server & Hin & Hk). exists server.
      apply list_elem_of_In in Hin. apply list_elem_of_In in Hk.
      apply elem_of_kept in Hk as [? ?]. done.
    + intros (server & Hin & Hs & He). exists server.
      split; [by apply list_elem_of_In | by apply list_elem_of_In, elem_of_kept].
  - intros server Hin Hs Hl.
    apply list_elem_of_split in Hin as (l1 & l2 & ->).
    exists (flat_map kept l1), (flat_map kept l2).
    rewrite flat_map_app. simpl. unfold kept at 2.
    by rewrite bool_decide_eq_true_2.
Qed.

(** ** Probes and the cache *)

Section ResolverCount.

Variable draw : nat -> nat.
Variable reachable : string -> bool.

(** Every round of the loop makes one draw and one probe; a failed probe
    shortens the pool by one. *)
Lemma probe_loop_count (fuel : nat) :
  forall (servers : list nordServer) (k : nat),
  length servers < fuel ->
  exists r servers' k',
    probe_loop draw reachable fuel servers k = Some (r, servers', k') /\
    k' + length servers' = k + length servers + (if is_Ok r then 1 else 0) /\
    k <= k' /\
    (is_Ok r = true -> servers' <> []) /\
    (is_Ok r = false -> r = Err (Errorf "no socks server found" []) /\ servers' = []).
Proof.
  induction fuel as [| fuel IH]; intros servers k Hfuel; [lia |].
  simpl. destruct (decide (length servers = 0)) as [H0 | Hlen].
  { exists (Err (Errorf "no socks server found" [])), servers, k.
    split; [done |]. simpl. split; [lia |]. split; [lia |].
    split; [done |]. intros _. split; [done | by destruct servers]. }
  set (i := Intn draw k (length servers)).
  assert (i < length servers) as Hi by (by apply Intn_lt).
  destruct (reachable (chosenAddr (servers !!! i))) eqn:Hr.
  - exists (Ok (chosenAddr (servers !!! i))), servers, (S k).
    split; [done |]. simpl. split; [lia |]. split; [lia |]. split; [| done].
    intros _ ->. simpl in Hlen. lia.
  - destruct (removeAtIndexNoOrder_in_range servers i (servers !!! i)) as [Hlen' _];
      [by apply list_lookup_lookup_total_lt |].
    destruct (IH (removeAtIndexNoOrder servers (Z.of_nat i)) (S k))
      as (r & servers' & k' & Hrun & Hcount & Hle & Hok); [lia |].
    exists r, servers', k'. split; [done |]. split; [lia |]. split; [lia | done].
Qed.

(** [FindNordVpnServer] always returns.  It asks the discovery only when
    the cached pool is empty: on a non-empty pool its outcome is the same
    whatever the discovery would answer.  A failed discovery is returned
    as it is, without a probe.  Otherwise it probes once per round: the
    probes it makes are the entries it evicts, plus the one that
    succeeded, so never more than the pool it started from holds; and a
    successful call leaves a non-empty pool behind, so that the next call
    asks no discovery. *)
Theorem FindNordVpnServer_probes (discover : result (list nordServer))
    (servers : list nordServer) (k : nat) :
  let pool :=
    if decide (length servers = 0)
    then match discover with Ok found => found | Err _ => [] end
    else servers in
  exists r servers' k',
    FindNordVpnServer draw reachable discover servers k = Some (r, servers', k') /\
    k' + length servers' = k + length pool + (if is_Ok r then 1 else 0) /\
    k <= k' <= k + length pool /\
    (is_Ok r = true -> servers' <> []) /\
    (servers <> [] -> forall discover',
       FindNordVpnServer draw reachable discover' servers k = Some (r, servers', k')) /\
    (servers = [] -> forall err, discover = Err err ->
       r = Err err /\ servers' = [] /\ k' = k).
Proof.
  cbn zeta. unfold FindNordVpnServer.
  destruct (decide (length servers = 0)) as [H0 | Hlen].
  - destruct discover as [found | err].
    + destruct (probe_loop_count (S (length found)) found k)
        as (r & servers' & k' & Hrun & Hcount & Hle & Hok & _); [lia |].
      exists r, servers', k'. split; [done |]. split; [done |].
      split.
      { destruct r; simpl in *; [| lia].
        specialize (Hok eq_refl). destruct servers'; [done | simpl in *; lia]. }
      split; [done |]. split; [| done].
      intros Hne. by destruct servers.
    + exists (Err err), [], k. split; [done |]. simpl. split; [lia |]. split; [lia |].
      split; [done |]. split.
      * intros Hne. by destruct servers.
      * intros _ err' [= ->]. done.
  - destruct (probe_loop_count (S (length servers)) servers k)
      as (r & servers' & k' & Hrun & Hcount & Hle & Hok & _); [lia |].
    exists r, servers', k'. split; [done |]. split; [done |].
    split.
    { destruct r; simpl in *; [| lia].
      specialize (Hok eq_refl). destruct servers'; [done | simpl in *; lia]. }
    split; [done |]. split; [| by intros ->].
    intros _ discover'. done.
Qed.

(** The resolver on an empty cache with [findNordVpnServers] as its
    discovery, as [NewServer] sets it up.  A failed fetch is returned as it
    is.  When no fetched entry is eligible the resolver fails with the
    no-server-found error without a single probe.  And an address it
    returns is the [Hostname] of an eligible fetched entry followed by
    [:1080], and was reachable. *)
Theorem FindNordVpnServer_after_discovery (fetched : result (list nordServerEntry))
    (k : nat) :
  let run := FindNordVpnServer draw reachable (findNordVpnServers fetched) [] k in
  (forall err, fetched = Err err -> run = Some (Err err, [], k)) /\
  (forall servers, fetched = Ok servers ->
     (forall server, server ∈ servers -> ~ eligible server) ->
     run = Some (Err (Errorf "no socks server found" []), [], k)) /\
  (forall servers addr servers' k', fetched = Ok servers ->
     run = Some (Ok addr, servers', k') ->
     exists server,
       server ∈ servers /\ eligible server /\
       addr = (Hostname (entry server) +:+ ":1080")%string /\
       reachable addr = true /\ entry server ∈ servers').
Proof.
  cbn zeta. split; [| split].
  - by intros err ->.
  - intros servers -> Hnone.
    destruct (findNordVpnServers_filter servers) as (_ & Hrun & Hin & _).
    unfold FindNordVpnServer. rewrite Hrun. simpl.
    destruct (flat_map kept servers) as [| s l] eqn:Hf; [done |].
    exfalso. destruct (proj1 (Hin s)) as (server & Hs & _ & He); [by left |].
    by apply (Hnone server).
  - intros servers addr servers' k' -> Hrun.
    destruct (findNordVpnServers_filter servers) as (_ & Hdisc & Hin & _).
    unfold FindNordVpnServer in Hrun. rewrite Hdisc in Hrun.
    rewrite decide_True in Hrun by done.
    destruct (probe_loop_total draw reachable (S (length (flat_map kept servers)))
                (flat_map kept servers) k)
      as (r & pool' & k'' & evicted & Hloop & Hperm & _ & Hend); [lia |].
    rewrite Hloop in Hrun. injection Hrun as -> -> ->.
    destruct Hend as [(s & [= ->] & Hs & Hr) | [? _]]; [| done].
    assert (s ∈ flat_map kept servers) as Hs'.
    { rewrite Hperm. apply elem_of_app. by right. }
    apply Hin in Hs' as (server & Hsv & <- & He).
    exists server. split; [done |]. split; [done |]. split; [done |]. by split.
Qed.

End ResolverCount.

(** ** The counters of [Start] *)

Lemma count_cons (h x : hstate) (l : list hstate) :
  length (filter (fun h' => h' = h) (x :: l))
  = (if decide (x = h) then 1 else 0) + length (filter (fun h' => h' = h) l).
Proof.
  destruct (decide (x = h)) as [Hx | Hx].
  - by rewrite filter_cons_True.
  - by rewrite filter_cons_False.
Qed.

Lemma count_insert (h : hstate) (l : list hstate) (i : nat) (old new : hstate) :
  l !! i = Some old ->
  length (filter (fun h' => h' = h) (<[i := new]> l)) + (if decide (old = h) then 1 else 0)
  = length (filter (fun h' => h' = h) l) + (if decide (new = h) then 1 else 0).
Proof.
  revert i. induction l as [| x l IH]; intros i Hi; [done |].
  destruct i as [| i]; simpl in *.
  - injection Hi as ->. rewrite !count_cons. lia.
  - specialize (IH i Hi). rewrite !count_cons. lia.
Qed.

Lemma in_state_spawn (h : hstate) (l : list hstate) :
  length (filter (fun h' => h' = h) (l ++ [HStart]))
  = length (filter (fun h' => h' = h) l) + (if decide (HStart = h) then 1 else 0).
Proof.
  rewrite filter_app, length_app.
  destruct (decide (HStart = h)) as [<- | Hn].
  - by rewrite filter_cons_True.
  - by rewrite filter_cons_False.
Qed.

Lemma start_step_counters (st : StartState) (m : move) :
  counters_inv st -> counters_inv (start_step st m).
Proof.
  intros [Hopen Hconn]. unfold counters_inv, in_state in *.
  destruct m as [| | | | i]; simpl.
  - destruct (loop st); try done.
    destruct (semaphore st); simpl; [done |].
    rewrite !in_state_spawn, length_app. simpl. split; lia.
  - by destruct (loop st).
  - done.
  - destruct (loop st); try done.
    destruct (semaphore st) as [ch |]; simpl.
    + destruct (chan_send tt ch); simpl; [| done].
      rewrite !in_state_spawn, length_app. simpl. split; lia.
    + rewrite !in_state_spawn, length_app. simpl. split; lia.
  - unfold handler_step.
    destruct (handlers st !! i) as [[| | |] |] eqn:Hi; try done; simpl.
    + pose proof (count_insert HHandling _ i _ HHandling Hi) as H1.
      pose proof (count_insert HStart _ i _ HHandling Hi) as H2.
      rewrite length_insert. simpl in *. split; lia.
    + set (new := match semaphore st with Some _ => HRelease | None => HExited end).
      assert (new <> HHandling /\ new <> HStart) as [Hn1 Hn2]
        by (unfold new; by destruct (semaphore st)).
      pose proof (count_insert HHandling _ i _ new Hi) as H1.
      pose proof (count_insert HStart _ i _ new Hi) as H2.
      rewrite length_insert.
      rewrite (decide_False (P := new = HHandling)) in H1 by done.
      rewrite (decide_False (P := new = HStart)) in H2 by done.
      simpl in *. split; lia.
    + destruct (semaphore st) as [ch |]; [| done].
      destruct (chan_send tt ch); [| done]. simpl.
      pose proof (count_insert HHandling _ i _ HExited Hi) as H1.
      pose proof (count_insert HStart _ i _ HExited Hi) as H2.
      rewrite length_insert. simpl in *. split; lia.
Qed.

Lemma Start_counters_inv (s : Server) (sched : list move) :
  counters_inv (Start s sched).
Proof.
  unfold Start.
  assert (counters_inv (start_init s)) as H0 by done.
  revert H0. generalize (start_init s).
  induction sched as [| m sched IH]; intros st Hst; [done |].
  simpl. apply IH. by apply start_step_counters.
Qed.

(** At every point of every run of [Start], [OpenConnCount] is the number
    of connection goroutines that are inside [handleConnection], and
    [ConnCount] the number of goroutines that have started: the open count
    is never negative and never above the total count, the total count
    never above the number of connections admitted, and under a positive
    limit the open count never exceeds the limit. *)
Theorem Start_counters (s : Server) (sched : list move) :
  let st := Start s sched in
  OpenConnCount st = Z.of_nat (in_state HHandling st) /\
  ConnCount st = Z.of_nat (length (handlers st) - in_state HStart st) /\
  (0 <= OpenConnCount st <= ConnCount st)%Z /\
  (ConnCount st <= Z.of_nat (length (handlers st)))%Z /\
  (0 < openConnLimit s -> (OpenConnCount st <= Z.of_nat (openConnLimit s))%Z).
Proof.
  cbn zeta. destruct (Start_counters_inv s sched) as [Hopen Hconn].
  set (st := Start s sched) in *.
  assert (in_state HHandling st + in_state HStart st <= length (handlers st)) as Hsum.
  { unfold in_state. generalize (handlers st). intros l.
    induction l as [| h l IH]; [done |].
    rewrite !count_cons. destruct h; simpl; lia. }
  split; [done |]. split; [lia |]. split; [lia |]. split; [lia |].
  intros Hpos. destruct (Start_inv s sched Hpos) as (ch & _ & _ & Hlen & Hle).
  fold st in Hlen. lia.
Qed.

(** ** Cancellation *)

Lemma Start_snoc (s : Server) (sched : list move) (m : move) :
  Start s (sched ++ [m]) = start_step (Start s sched) m.
Proof. unfold Start. by rewrite fold_left_app. Qed.

Lemma start_step_cancelled (st : StartState) (m : move) :
  cancelled st = true -> cancelled (start_step st m) = true.
Proof.
  intros Hc. destruct m as [| | | | i]; simpl; try done.
  - destruct (loop st); try done. by destruct (semaphore st).
  - by destruct (loop st).
  - destruct (loop st); try done.
    destruct (semaphore st) as [ch |]; [| done]. by destruct (chan_send tt ch).
  - unfold handler_step.
    destruct (handlers st !! i) as [[| | |] |]; try done.
    destruct (semaphore st) as [ch |]; [| done]. by destruct (chan_send tt ch).
Qed.

(** Once [ctx] is cancelled, a step admits a connection only by using up
    the one the loop may still have pending. *)
Lemma start_step_pending (st : StartState) (m : move) :
  cancelled st = true ->
  length (handlers (start_step st m)) + pending (start_step st m)
  <= length (handlers st) + pending st.
Proof.
  intros Hc. unfold pending.
  destruct m as [| | | | i]; simpl.
  - destruct (loop st) eqn:Hl; rewrite ?Hl, ?Hc; try lia.
    destruct (semaphore st); simpl; [lia |].
    rewrite Hc, length_app. simpl. lia.
  - destruct (loop st) eqn:Hl; rewrite ?Hl, ?Hc; simpl; rewrite ?Hc; lia.
  - destruct (loop st); simpl; rewrite ?Hc; lia.
  - destruct (loop st) eqn:Hl; rewrite ?Hl, ?Hc; simpl; rewrite ?Hc; try lia.
    destruct (semaphore st) as [ch |]; simpl.
    + destruct (chan_send tt ch); simpl; rewrite ?Hl, ?Hc, ?length_app; simpl; lia.
    + rewrite Hc, length_app. simpl. lia.
  - unfold handler_step.
    destruct (handlers st !! i) as [[| | |] |]; simpl; rewrite ?length_insert; try done.
    destruct (semaphore st) as [ch |]; [| done].
    destruct (chan_send tt ch); simpl; rewrite ?length_insert; done.
Qed.

Lemma fold_start_step_pending (sched : list move) (st : StartState) :
  cancelled st = true ->
  length (handlers (fold_left start_step sched st)) +
  pending (fold_left start_step sched st)
  <= length (handlers st) + pending st.
Proof.
  revert st. induction sched as [| m sched IH]; intros st Hc; [done |].
  simpl. etrans; [apply IH; by apply start_step_cancelled |].
  by apply start_step_pending.
Qed.

Lemma start_step_loop_handler (st : StartState) (i : nat) :
  loop (handler_step st i) = loop st /\ cancelled (handler_step st i) = cancelled st.
Proof.
  unfold handler_step.
  destruct (handlers st !! i) as [[| | |] |]; try done.
  destruct (semaphore st) as [ch |]; [| done]. by destruct (chan_send tt ch).
Qed.



Lemma Start_app (s : Server) (sched sched' : list move) :
  Start s (sched ++ sched') = fold_left start_step sched' (Start s sched).
Proof. unfold Start. by rewrite fold_left_app. Qed.

(** After [ctx] has been cancelled the server admits at most one more
    connection, whatever happens afterwards: the one its accept loop was
    already waiting for or holding.  When the cancellation finds the loop
    at its top, or returned, it admits none. *)
Theorem Start_admits_one_after_cancel (s : Server) (sched sched' : list move) :
  cancelled (Start s sched) = true ->
  length (handlers (Start s (sched ++ sched')))
    <= length (handlers (Start s sched)) + 1 /\
  (loop (Start s sched) = LTop \/ loop (Start s sched) = LStopped ->
   length (handlers (Start s (sched ++ sched'))) = length (handlers (Start s sched))).
Proof.
  intros Hc. rewrite Start_app.
  pose proof (fold_start_step_pending sched' (Start s sched) Hc) as Hp.
  pose proof (fold_start_step_handlers_mono sched' (Start s sched)) as Hm.
  assert (pending (Start s sched) <= 1) as H1.
  { unfold pending. destruct (loop _), (cancelled _); lia. }
  split; [lia |].
  intros Hl. assert (pending (Start s sched) = 0) as H0.
  { unfold pending. destruct Hl as [-> | ->]; [by rewrite Hc | done]. }
  lia.
Qed.

Lemma Start_admits_one_after_cancel_witness :
  cancelled (Start one_slot [MvLoop; MvCancel]) = true /\
  length (handlers (Start one_slot ([MvLoop; MvCancel] ++
                                    [MvConn; MvLoop; MvLoop; MvConn; MvLoop])))
    <= length (handlers (Start one_slot [MvLoop; MvCancel])) + 1.
Proof.
  split; [reflexivity |].
  exact (proj1 (Start_admits_one_after_cancel one_slot [MvLoop; MvCancel]
                  [MvConn; MvLoop; MvLoop; MvConn; MvLoop] eq_refl)).
Defined.


(** Under a positive limit [N], once [N] connections have been admitted
    and a further one is waiting at the acquire, the accept loop stays at
    the acquire for ever: the semaphore is full and stays full.  So from
    then on [Start] does not return, not even after [ctx] is cancelled
    and every connection has ended. *)
Theorem Start_blocked_at_acquire_never_returns (s : Server) (sched sched' : list move) :
  0 < openConnLimit s ->
  length (handlers (Start s sched)) = openConnLimit s ->
  loop (Start s sched) = LAcquire ->
  loop (Start s (sched ++ sched')) = LAcquire /\
  loop (Start s (sched ++ sched')) <> LStopped /\
  length (handlers (Start s (sched ++ sched'))) = openConnLimit s.
Proof.
  intros Hpos Hfull Hl.
  assert (forall sc, length (handlers (Start s (sched ++ sc))) = openConnLimit s) as Hlen.
  { intros sc. destruct (Start_inv s (sched ++ sc) Hpos) as (ch & _ & _ & Hb & Hle).
    pose proof (fold_start_step_handlers_mono sc (Start s sched)) as Hm.
    rewrite <- Start_app in Hm. lia. }
  assert (loop (Start s (sched ++ sched')) = LAcquire) as Hacq.
  { induction sched' as [| m sched' IH] using rev_ind; [by rewrite app_nil_r |].
    rewrite app_assoc, Start_snoc.
    destruct (Start_inv s (sched ++ sched') Hpos) as (ch & Hsem & Hcap & Hb & Hle).
    specialize (Hlen sched').
    set (st := Start s (sched ++ sched')) in *.
    destruct m as [| | | | i]; simpl.
    - by rewrite IH.
    - by rewrite IH.
    - done.
    - rewrite IH, Hsem. unfold chan_send.
      rewrite decide_False by lia. done.
    - destruct (start_step_loop_handler st i) as [-> _]. done. }
  split; [done |]. split; [by rewrite Hacq | apply Hlen].
Qed.

Lemma Start_blocked_at_acquire_never_returns_witness :
  loop (Start one_slot (two_clients ++ [MvCancel; MvLoop; MvHandler 0; MvLoop])) = LAcquire.
Proof.
  assert (0 < openConnLimit one_slot) as Hpos by (simpl; lia).
  exact (proj1 (Start_blocked_at_acquire_never_returns one_slot two_clients
                  [MvCancel; MvLoop; MvHandler 0; MvLoop] Hpos eq_refl eq_refl)).
Defined.

(** ** The sends that go through *)

Lemma gstep_buf (t : tid) (err : option error) (g : gstate) (ch : chan (option error)) :
  length (buf ch) <= cap ch ->
  length (buf (snd (fst (gstep t err g ch)))) <= cap (snd (fst (gstep t err g ch))).
Proof.
  intros Hb. unfold gstep. destruct g as [| [| v rest]]; simpl; try done.
  unfold chan_send. destruct (decide (length (buf ch) < cap ch)); simpl; [| done].
  rewrite length_app. simpl. lia.
Qed.

Lemma relay_step_buf (errC2R errR2C : option error) (st : RelayState) (t : tid) :
  length (buf (done st)) <= cap (done st) ->
  length (buf (done (relay_step errC2R errR2C st t)))
    <= cap (done (relay_step errC2R errR2C st t)).
Proof.
  intros Hb. destruct t; unfold relay_step.
  - pose proof (gstep_buf T_client_to_remote errC2R (g_c2r st) (done st) Hb) as H.
    destruct (gstep T_client_to_remote errC2R (g_c2r st) (done st)) as [[g ch] s].
    exact H.
  - pose proof (gstep_buf T_remote_to_client errR2C (g_r2c st) (done st) Hb) as H.
    destruct (gstep T_remote_to_client errR2C (g_r2c st) (done st)) as [[g ch] s].
    exact H.
  - destruct (main st); try done.
    unfold chan_recv. destruct (buf (done st)) as [| v rest] eqn:Hbuf.
    + rewrite Hbuf. simpl. lia.
    + simpl in *. lia.
Qed.

Lemma fold_relay_step_buf (errC2R errR2C : option error) (sched : list tid)
    (st : RelayState) :
  length (buf (done st)) <= cap (done st) ->
  length (buf (done (fold_left (relay_step errC2R errR2C) sched st)))
    <= cap (done (fold_left (relay_step errC2R errR2C) sched st)).
Proof.
  revert st. induction sched as [| t sched IH]; intros st Hst; [done |].
  simpl. apply IH. by apply relay_step_buf.
Qed.

Lemma relay_run_buf (errC2R errR2C : option error) (sched : list tid) :
  length (buf (done (relay_run errC2R errR2C sched))) <= 1.
Proof.
  destruct (relay_run_inv errC2R errR2C sched) as [Hcap _].
  rewrite <- Hcap. apply fold_relay_step_buf. simpl. lia.
Qed.

Lemma length_sends_of (log : list (tid * option error)) :
  Forall (fun p => fst p = T_client_to_remote \/ fst p = T_remote_to_client) log ->
  length log
  = length (sends_of T_client_to_remote log) + length (sends_of T_remote_to_client log).
Proof.
  unfold sends_of. induction log as [| [t v] log IH]; [done |].
  intros [Ht Hall]%Forall_cons. specialize (IH Hall). simpl in Ht.
  rewrite !length_map in *.
  destruct Ht as [-> | ->].
  - rewrite filter_cons_True by done. rewrite (filter_cons_False _ (_, _)) by done.
    simpl. lia.
  - rewrite filter_cons_False by done. rewrite (filter_cons_True _ (_, _)) by done.
    simpl. lia.
Qed.

Lemma length_copier (format : string) (err : option error) :
  length (copier format err) = if errors_Is err ECONNRESET then 2 else 1.
Proof.
  unfold copier. destruct err as [e |]; simpl; [| done].
  by destruct (errors_Is_chain e ECONNRESET).
Qed.

Lemma finished_sends (t : tid) (err : option error) (g : gstate)
    (log : list (tid * option error)) :
  g_ok t err g log -> finished g = true ->
  length (sends_of t log) = if errors_Is err ECONNRESET then 2 else 1.
Proof.
  intros Hg Hf. destruct g as [| [| v p]]; try done.
  unfold g_ok in Hg. rewrite app_nil_r in Hg. by rewrite Hg, length_copier.
Qed.

(** In every run of [syncConns] at most two sends on [done] go through:
    the one the caller receives and the one the buffer holds.  So when a
    copy ends with a connection reset, which makes its goroutine send
    twice, the two copy goroutines never both end: one of them stays at a
    send on [done] for ever.  When neither copy ends with a reset, both
    goroutines can end. *)
Theorem syncConns_reset_blocks_a_goroutine (errC2R errR2C : option error) :
  (forall sched, length (sent (relay_run errC2R errR2C sched)) <= 2) /\
  (errors_Is errC2R ECONNRESET = true \/ errors_Is errR2C ECONNRESET = true ->
   forall sched,
     finished (g_c2r (relay_run errC2R errR2C sched)) = false \/
     finished (g_r2c (relay_run errC2R errR2C sched)) = false) /\
  (errors_Is errC2R ECONNRESET = false -> errors_Is errR2C ECONNRESET = false ->
   let st := relay_run errC2R errR2C
               [T_client_to_remote; T_client_to_remote; T_main;
                T_remote_to_client; T_remote_to_client] in
   finished (g_c2r st) = true /\ finished (g_r2c st) = true).
Proof.
  assert (forall sched, length (sent (relay_run errC2R errR2C sched)) <= 2) as Hsent.
  { intros sched.
    pose proof (relay_run_inv errC2R errR2C sched) as (_ & Hlog & _).
    pose proof (relay_run_buf errC2R errR2C sched) as Hb.
    apply (f_equal length) in Hlog. rewrite length_map, length_app in Hlog.
    destruct (main (relay_run errC2R errR2C sched)); simpl in Hlog; lia. }
  split; [exact Hsent |]. split.
  - intros Hreset sched.
    pose proof (relay_run_inv errC2R errR2C sched) as (_ & _ & Hg1 & Hg2 & Hall & _).
    pose proof (Hsent sched) as Hle.
    rewrite (length_sends_of _ Hall) in Hle.
    destruct (finished (g_c2r (relay_run errC2R errR2C sched))) eqn:Hf1; [| by left].
    destruct (finished (g_r2c (relay_run errC2R errR2C sched))) eqn:Hf2; [| by right].
    exfalso.
    rewrite (finished_sends _ _ _ _ Hg1 Hf1), (finished_sends _ _ _ _ Hg2 Hf2) in Hle.
    destruct Hreset as [Hr | Hr]; rewrite Hr in Hle;
      [destruct (errors_Is errR2C ECONNRESET) | destruct (errors_Is errC2R ECONNRESET)];
      lia.
  - intros H1 H2. cbn zeta.
    pose proof (length_copier (format_of T_client_to_remote) errC2R) as Hc1.
    pose proof (length_copier (format_of T_remote_to_client) errR2C) as Hc2.
    rewrite H1 in Hc1. rewrite H2 in Hc2.
    destruct (copier (format_of T_client_to_remote) errC2R) as [| v1 [| ? ?]] eqn:E1;
      try done.
    destruct (copier (format_of T_remote_to_client) errR2C) as [| v2 [| ? ?]] eqn:E2;
      try done.
    assert (exists log,
              relay_run errC2R errR2C
                [T_client_to_remote; T_client_to_remote; T_main;
                 T_remote_to_client; T_remote_to_client]
              = mkRelay (mkChan 1 [v2]) (GSend []) (GSend []) (MCloseClient v1)
                        false false log) as [log ->]; [| done].
    eexists. unfold relay_run. cbn [fold_left].
    unfold relay_step at 5. cbn [gstep relay_init g_c2r g_r2c done main sent
                                  clientClosed remoteClosed].
    rewrite E1.
    unfold relay_step at 4. cbn [gstep g_c2r g_r2c done main sent
                                  clientClosed remoteClosed].
    change (chan_send v1 (make_chan 1)) with (Some (mkChan 1 [v1])).
    unfold relay_step at 3. cbn [g_c2r g_r2c done main sent clientClosed remoteClosed].
    change (chan_recv (mkChan 1 [v1])) with (Some (v1, mkChan (A := option error) 1 [])).
    cbn [g_c2r g_r2c done main sent clientClosed remoteClosed].
    unfold relay_step at 2. cbn [gstep g_c2r g_r2c done main sent
                                  clientClosed remoteClosed].
    rewrite E2.
    unfold relay_step at 1. cbn [gstep g_c2r g_r2c done main sent
                                  clientClosed remoteClosed].
    change (chan_send v2 (mkChan 1 [])) with (Some (mkChan 1 [v2])).
    reflexivity.
Qed.

Lemma syncConns_reset_blocks_a_goroutine_witness :
  let st := relay_run (Some (OpError "read" ECONNRESET)) None
              [T_client_to_remote; T_remote_to_client; T_client_to_remote; T_main;
               T_remote_to_client; T_client_to_remote; T_main; T_main] in
  (finished (g_c2r st) = false \/ finished (g_r2c st) = false) /\
  main st = MReturned None.
Proof.
  cbn zeta. split; [| reflexivity].
  apply (proj1 (proj2 (syncConns_reset_blocks_a_goroutine
                         (Some (OpError "read" ECONNRESET)) None))).
  left. reflexivity.
Defined.
